(** * timergen: the timestamp format language and the frame schedule

    A shallow embedding of the core of [timergen.py]:
    - [get_units_from_milliseconds], the decomposition of an elapsed time;
    - [format_time], the [%]-directive mini language (a regular expression
      substitution followed by Python's printf-style [%] operator applied to
      the empty tuple);
    - [millis_counts], [frame_counts] and the two schedule loops of
      [generate_frames];
    - [message] and [create_message_funcs], the diagnostic messages.

    Modelling conventions.
    - Python [int] is [Z]; [divmod] and [//] are floor division, which is
      what [Z.div] and [Z.modulo] compute.
    - Python [str] is a list of characters with code points below 256
      ([list ascii], shown as [string] at the interface).  On such characters
      the regular expression class [\d] is exactly ['0'..'9'].
    - Python [float] is IEEE-754 binary64, modelled by [spec_float] with
      precision 53 and maximal exponent 1024, rounding to nearest even.
    - An exception is a value of [exn]; a computation that may raise returns
      a [result].
    - The capacity of the interpreter is not modelled: a string or a list
      of [2^63] elements or more, which no memory holds, and the cap on the
      number of digits that [int] and [str] convert.  What raises without
      anything being built is modelled: the integer limits of the format
      operator, of [islice] and of a negative repetition count, and the
      conversion to [float] in the unused product
      [config.duration * config.frame_rate] of [generate_frames]. *)

From Stdlib Require Import ZArith List Bool Lia Sorted.
From Stdlib Require Import Strings.Ascii Strings.String.
From Stdlib Require Import Numbers.DecimalString Numbers.DecimalZ.
From Stdlib Require Numbers.DecimalPos.
From Stdlib Require Import Floats.SpecFloat.
Import ListNotations.

Local Open Scope char_scope.
Local Open Scope Z_scope.

(** ** Exceptions and results *)

Inductive exn : Type :=
| ValueError (msg : string)
| TypeError (msg : string)
| ZeroDivisionError (msg : string)
| OverflowError (msg : string).

Inductive result (A : Type) : Type :=
| Ok (a : A)
| Err (e : exn).

Arguments Ok {A} a.
Arguments Err {A} e.

Definition bind {A B : Type} (r : result A) (k : A -> result B) : result B :=
  match r with
  | Ok a => k a
  | Err e => Err e
  end.

Notation "x <- r ;; k" := (bind r (fun x => k))
  (at level 61, r at next level, right associativity).

Definition fmap {A B : Type} (f : A -> B) (r : result A) : result B :=
  x <- r ;; Ok (f x).

(** [for x in xs: out.append(f(x))], stopping at the first exception. *)
Fixpoint mapM {A B : Type} (f : A -> result B) (xs : list A)
  : result (list B) :=
  match xs with
  | [] => Ok []
  | x :: r => y <- f x ;; ys <- mapM f r ;; Ok (y :: ys)
  end.

(** ** Time units *)

(** [divmod(a, b)] *)
Definition divmod (a b : Z) : Z * Z := (a / b, a mod b).

Definition get_units_from_milliseconds (milliseconds : Z) : Z * Z * Z * Z :=
  let '(secs, millis) := divmod milliseconds 1000 in
  let '(mins, secs) := divmod secs 60 in
  let '(hours, mins) := divmod mins 60 in
  (hours, mins, secs, millis).

Definition get_units_from_seconds (seconds : Z) : Z * Z * Z * Z :=
  get_units_from_milliseconds (seconds * 1000).

(** The recombination [((H*60+M)*60+S)*1000+m] of the specification. *)
Definition recombine (u : Z * Z * Z * Z) : Z :=
  let '(h, mi, s, ms) := u in ((h * 60 + mi) * 60 + s) * 1000 + ms.

(** ** Strings *)

Definition chars : Type := list ascii.

Definition is_digit (c : ascii) : bool :=
  let n := nat_of_ascii c in (48 <=? n)%nat && (n <=? 57)%nat.

(** [str(n)] for an [int]. *)
Definition str (n : Z) : chars :=
  list_ascii_of_string (NilZero.string_of_int (Z.to_int n)).

(** [int(s)] for a string matched by [-?\d+]. *)
Definition digit_value (c : ascii) : Z := Z.of_nat (nat_of_ascii c) - 48.

Definition int_of_digits (ds : chars) : Z :=
  fold_left (fun acc c => acc * 10 + digit_value c) ds 0.

Definition int_of_chars (s : chars) : Z :=
  match s with
  | "-" :: ds => - int_of_digits ds
  | _ => int_of_digits s
  end.

(** [s.rjust(width, "0")] *)
Definition rjust0 (width : Z) (s : chars) : chars :=
  repeat "0" (Z.to_nat width - List.length s) ++ s.

(** [s[dig:]] for [dig < 0] and [s[:dig]] for [dig > 0]. *)
Definition slice_last (n : nat) (s : chars) : chars :=
  skipn (List.length s - n) s.

Definition slice_first (n : nat) (s : chars) : chars :=
  firstn n s.

(** ** The directive pattern

    [% ( (?P<digits>-?\d+)? (?P<unit>[HMSm]) | % )] *)

Inductive unit_t : Type := UH | UM | US | Um.

Definition unit_of_char (c : ascii) : option unit_t :=
  match c with
  | "H" => Some UH
  | "M" => Some UM
  | "S" => Some US
  | "m" => Some Um
  | _ => None
  end.

(** A match object: either [spec == "%"] or the two groups [digits] (which
    is [None] when the optional group did not take part) and [unit]. *)
Inductive rmatch : Type :=
| MPercent
| MDirective (digits : option chars) (unit : unit_t).

(** The longest prefix of decimal digits, and what follows it. *)
Fixpoint span_digits (s : chars) : chars * chars :=
  match s with
  | c :: r =>
      if is_digit c then let '(ds, rest) := span_digits r in (c :: ds, rest)
      else ([], s)
  | [] => ([], [])
  end.

(** The group [(-?\d+)?] at the head of [s]: the text it captures, if it
    takes part, and what follows it. *)
Definition group_digits (s : chars) : option chars * chars :=
  match s with
  | "-" :: r =>
      match span_digits r with
      | ([], _) => (None, s)
      | (ds, rest) => (Some ("-" :: ds), rest)
      end
  | _ =>
      match span_digits s with
      | ([], _) => (None, s)
      | (ds, rest) => (Some ds, rest)
      end
  end.

Definition glen (g : option chars) : nat :=
  match g with Some ds => List.length ds | None => 0%nat end.

(** A match of the pattern at the head of [s], with the number of
    characters it spans.  A digit or a sign is never a unit letter, so
    giving back digits cannot help the unit to match: the greedy choice is
    the only one. *)
Definition rx_match (s : chars) : option (rmatch * nat) :=
  match s with
  | "%" :: r =>
      let '(g, rest) := group_digits r in
      match rest with
      | c :: _ =>
          match unit_of_char c with
          | Some u => Some (MDirective g u, (2 + glen g)%nat)
          | None =>
              match r with
              | "%" :: _ => Some (MPercent, 2%nat)
              | _ => None
              end
          end
      | [] => None
      end
  | _ => None
  end.

(** The pieces [rx.sub] sees, from left to right: the matches, which do not
    overlap, and the characters between them, which are copied.  [skip]
    counts the characters still covered by the last match. *)
Inductive piece : Type :=
| PChar (c : ascii)
| PMatch (ma : rmatch).

Fixpoint rx_scan_from (skip : nat) (s : chars) : list piece :=
  match s with
  | [] => []
  | c :: r =>
      match skip with
      | S k => rx_scan_from k r
      | O =>
          match rx_match s with
          | Some (ma, n) => PMatch ma :: rx_scan_from (n - 1) r
          | None => PChar c :: rx_scan_from 0 r
          end
      end
  end.

Definition rx_scan (s : chars) : list piece := rx_scan_from 0 s.

(** [rx.sub(repl, s)]: [repl] is called on each match in turn and the first
    exception it raises ends the substitution. *)
Definition sub_piece (repl : rmatch -> result chars) (p : piece)
  : result chars :=
  match p with
  | PChar c => Ok [c]
  | PMatch ma => repl ma
  end.

Definition sub_pieces (repl : rmatch -> result chars) (ps : list piece)
  : result chars :=
  fmap (@List.concat ascii) (mapM (sub_piece repl) ps).

Definition rx_sub (repl : rmatch -> result chars) (s : chars)
  : result chars :=
  sub_pieces repl (rx_scan s).

(** ** The replacement function of [format_time] *)

Definition default_digs (u : unit_t) : Z :=
  match u with
  | UH => -2
  | UM => -2
  | US => -2
  | Um => 3
  end.

(** [{"H": hr, "M": min, "S": sec, "m": ms}[u]] *)
Definition unit_value (units : Z * Z * Z * Z) (u : unit_t) : Z :=
  let '(hr, min, sec, ms) := units in
  match u with
  | UH => hr
  | UM => min
  | US => sec
  | Um => ms
  end.

(** The value of [dig] once the two branches on [ma["digits"]] are done:
    the stored width of the directive. *)
Definition stored_width (digits : option chars) (u : unit_t) : Z :=
  match digits with
  | None => default_digs u
  | Some d => - int_of_chars d
  end.

(** [str(value).rjust(max(abs(dig), default_digs[u]), "0")] *)
Definition padded (value dig : Z) (u : unit_t) : chars :=
  rjust0 (Z.max (Z.abs dig) (default_digs u)) (str value).

(** [text[s]] with [s = slice(dig, None)] when [dig < 0] and
    [s = slice(None, dig)] otherwise. *)
Definition apply_slice (dig : Z) (text : chars) : chars :=
  if dig <? 0 then slice_last (Z.to_nat (- dig)) text
  else slice_first (Z.to_nat dig) text.

Definition width_cannot_be_0 : exn := ValueError "width cannot be 0"%string.

Definition replacer (units : Z * Z * Z * Z) (ma : rmatch) : result chars :=
  match ma with
  | MPercent => Ok ["%"; "%"]
  | MDirective digits u =>
      let dig := stored_width digits u in
      if dig =? 0 then Err width_cannot_be_0
      else Ok (apply_slice dig (padded (unit_value units u) dig u))
  end.

(** ** The printf-style operator, applied to the empty tuple

    [text % ()]: a conversion specification is [%], flags, a width, a
    precision, a length modifier and a conversion character.  [%%] gives a
    [%]; every other specification asks for an argument, and there is
    none.  The width and the precision are accumulated digit by digit in a
    [Py_ssize_t] and an [int]; a digit that would take them above
    [PY_SSIZE_T_MAX] or [INT_MAX] (those of a 64-bit interpreter) is
    refused on the spot. *)

Definition PY_SSIZE_T_MAX : Z := 2 ^ 63 - 1.
Definition INT_MAX : Z := 2 ^ 31 - 1.

Inductive fstate : Type :=
| FText              (* outside a specification *)
| FStart             (* just after the [%] *)
| FFlags             (* in the flags *)
| FWidth (width : Z) (* in the digits of the width *)
| FDot               (* just after the [.] *)
| FPrec (prec : Z)   (* in the digits of the precision *)
| FLen.              (* after the length modifier *)

Definition is_flag (c : ascii) : bool :=
  match c with
  | "-" | "+" | " " | "#" | "0" => true
  | _ => false
  end.

Definition is_lenmod (c : ascii) : bool :=
  match c with
  | "h" | "l" | "L" => true
  | _ => false
  end.

Definition is_dot (c : ascii) : bool :=
  match c with "." => true | _ => false end.

Definition incomplete_format : exn := ValueError "incomplete format"%string.
Definition not_enough_arguments : exn :=
  TypeError "not enough arguments for format string"%string.
Definition requires_mapping : exn :=
  TypeError "format requires a mapping"%string.
Definition width_too_big : exn := ValueError "width too big"%string.
Definition precision_too_big : exn := ValueError "precision too big"%string.

(** What the parser of a specification does on reading [c]. *)
Inductive fstep : Type :=
| Goto (st : fstate)  (* go on reading *)
| Fetch               (* [c] is the conversion character or a [*]: the
                         next argument is fetched *)
| Raise (e : exn).

Definition next_state (st : fstate) (c : ascii) : fstep :=
  match st with
  | FStart | FFlags =>
      if is_flag c then Goto FFlags
      else if is_digit c then Goto (FWidth (digit_value c))
      else if is_dot c then Goto FDot
      else if is_lenmod c then Goto FLen
      else Fetch
  | FWidth width =>
      if is_digit c then
        if (PY_SSIZE_T_MAX - digit_value c) / 10 <? width
        then Raise width_too_big
        else Goto (FWidth (width * 10 + digit_value c))
      else if is_dot c then Goto FDot
      else if is_lenmod c then Goto FLen
      else Fetch
  | FDot =>
      if is_digit c then Goto (FPrec (digit_value c))
      else if is_lenmod c then Goto FLen
      else Fetch
  | FPrec prec =>
      if is_digit c then
        if (INT_MAX - digit_value c) / 10 <? prec
        then Raise precision_too_big
        else Goto (FPrec (prec * 10 + digit_value c))
      else if is_lenmod c then Goto FLen
      else Fetch
  | FLen | FText => Fetch
  end.

Fixpoint py_format_from (st : fstate) (s : chars) : result chars :=
  match s with
  | [] =>
      match st with
      | FText => Ok []
      | _ => Err incomplete_format
      end
  | c :: r =>
      match st with
      | FText =>
          if Ascii.eqb c "%" then py_format_from FStart r
          else fmap (cons c) (py_format_from FText r)
      | FStart =>
          if Ascii.eqb c "%" then fmap (cons "%") (py_format_from FText r)
          else if Ascii.eqb c "(" then Err requires_mapping
          else
            match next_state st c with
            | Goto st' => py_format_from st' r
            | Fetch => Err not_enough_arguments
            | Raise e => Err e
            end
      | _ =>
          match next_state st c with
          | Goto st' => py_format_from st' r
          | Fetch => Err not_enough_arguments
          | Raise e => Err e
          end
      end
  end.

Definition py_format (s : chars) : result chars := py_format_from FText s.

(** ** [format_time] *)

Definition format_time_chars (millis : Z) (fmt : chars) : result chars :=
  let units := get_units_from_milliseconds millis in
  text <- rx_sub (replacer units) fmt ;;
  py_format text.

Definition format_time (millis : Z) (fmt : string) : result string :=
  fmap string_of_list_ascii
    (format_time_chars millis (list_ascii_of_string fmt)).

(** ** Floating point: the duration

    [config.duration] is a [float].  The operations [generate_frames] applies
    to it are [int(x)], [x % 1], [x * 1000], [x + 1] and the comparison of an
    [int] with a [float]. *)

Definition float : Type := spec_float.
Definition prec : Z := 53.
Definition emax : Z := 1024.

(** The binary64 number nearest to [m * 2^e]. *)
Definition dyadic (m e : Z) : float := binary_normalize prec emax m e false.

(** The conversion of an [int] operand of [+] or [*] to [float]. *)
Definition float_of_int (n : Z) : float := dyadic n 0.

Definition float_add : float -> float -> float := SFadd prec emax.
Definition float_mul : float -> float -> float := SFmul prec emax.

(** [int(x)]: truncation towards zero. *)
Definition py_int (x : float) : result Z :=
  match x with
  | S754_nan => Err (ValueError "cannot convert float NaN to integer"%string)
  | S754_infinity _ =>
      Err (OverflowError "cannot convert float infinity to integer"%string)
  | S754_zero _ => Ok 0
  | S754_finite s m e => Ok (cond_Zopp s (Z.shiftl (Zpos m) e))
  end.

(** The mathematical floor of a finite float [(-1)^s * m * 2^e], for the
    statements. *)
Definition float_floor (x : float) : Z :=
  match x with
  | S754_finite s m e =>
      if 0 <=? e then cond_Zopp s (Zpos m) * 2 ^ e
      else cond_Zopp s (Zpos m) / 2 ^ (- e)
  | _ => 0
  end.

(** [fmod(x, 1.0)] for finite [x = (-1)^s * m * 2^e]: the fractional part,
    with the sign of [x]; it is computed without rounding. *)
Definition fmod_one (s : bool) (m : positive) (e : Z) : float :=
  if 0 <=? e then S754_zero s
  else binary_normalize prec emax
         (cond_Zopp s (Zpos m mod 2 ^ (- e))) e s.

(** [x % 1]: [fmod], then the adjustment that gives the result the sign of
    the divisor. *)
Definition float_mod_one (x : float) : float :=
  match x with
  | S754_nan | S754_infinity _ => S754_nan
  | S754_zero _ => S754_zero false
  | S754_finite s m e =>
      match fmod_one s m e with
      | S754_zero _ => S754_zero false
      | S754_finite true _ _ as md => float_add md (float_of_int 1)
      | md => md
      end
  end.

(** [i < x] for an [int] [i] and a [float] [x]: the comparison is exact. *)
Definition int_lt_float (i : Z) (x : float) : bool :=
  match x with
  | S754_nan => false
  | S754_infinity s => negb s
  | S754_zero _ => i <? 0
  | S754_finite s m e =>
      if 0 <=? e then i <? cond_Zopp s (Zpos m * 2 ^ e)
      else i * 2 ^ (- e) <? cond_Zopp s (Zpos m)
  end.

(** A finite float that is not negative. *)
Definition float_nonneg (x : float) : bool :=
  match x with
  | S754_zero _ => true
  | S754_finite s _ _ => negb s
  | _ => false
  end.



(** ** The frame schedule *)

Definition zero_division : exn :=
  ZeroDivisionError "integer division or modulo by zero"%string.

(** [a // b] *)
Definition floordiv (a b : Z) : result Z :=
  if b =? 0 then Err zero_division else Ok (a / b).

(** [itertools.accumulate] *)
Fixpoint accumulate_from (total : Z) (xs : list Z) : list Z :=
  match xs with
  | [] => []
  | x :: r => (total + x) :: accumulate_from (total + x) r
  end.

Definition accumulate (xs : list Z) : list Z :=
  match xs with
  | [] => []
  | x :: r => x :: accumulate_from x r
  end.

Definition cannot_fit_index : exn :=
  OverflowError "cannot fit 'int' into an index-sized integer"%string.

(** [[x] * n]: a count that is not positive gives the empty list, but a
    count below the least [Py_ssize_t] is refused.  (A count of [2^63] or
    more would be a list that no memory holds: as with every limit of
    capacity, that side is not modelled.) *)
Definition list_times (x : Z) (n : Z) : result (list Z) :=
  if n <? - 2 ^ 63 then Err cannot_fit_index
  else Ok (repeat x (Z.to_nat n)).

(** [millis_counts(fps)], as the list of what the generator yields; the
    division is done before the first item is produced. *)
Definition millis_counts (fps : Z) : result (list Z) :=
  step <- floordiv 1000 fps ;;
  steps <- list_times step (fps - 1) ;;
  Ok (accumulate ([0] ++ steps)).

(** [range(n)] *)
Definition range (n : Z) : list Z := map Z.of_nat (seq 0 (Z.to_nat n)).

(** The fields of [TimergenConfig] that [generate_frames] reads to build
    [times]. *)
Record TimergenConfig : Type := {
  duration : float;
  frame_rate : Z;
  time_format : string
}.

(** The two loops of [generate_frames] that fill [times] (lines 284 to
    292), with the call [format_time(_, config.time_format)] abstracted as
    [label]. *)
Definition whole_seconds {A : Type} (label : Z -> result A)
  (d : float) (fps : Z) : result (list A) :=
  n <- py_int d ;;
  fmap (@List.concat A)
    (mapM (fun i =>
             js <- millis_counts fps ;;
             mapM (fun j => label (i * 1000 + j)) js)
          (range n)).

(** The threshold [config.duration % 1 * 1000] of the second loop. *)
Definition frac_millis (d : float) : float :=
  float_mul (float_mod_one d) (float_of_int 1000).

Definition partial_second {A : Type} (label : Z -> result A)
  (d : float) (fps : Z) : result (list A) :=
  offs <- millis_counts fps ;;
  fmap (@List.concat A)
    (mapM (fun i =>
             if int_lt_float i (frac_millis d)
             then
               sec <- py_int (float_add d (float_of_int 1)) ;;
               x <- label (sec * 1000 + i) ;;
               Ok [x]
             else Ok [])
          offs).

Definition fill_times {A : Type} (label : Z -> result A)
  (d : float) (fps : Z) : result (list A) :=
  whole <- whole_seconds label d fps ;;
  tail <- partial_second label d fps ;;
  Ok (whole ++ tail).

Definition int_too_large : exn :=
  OverflowError "int too large to convert to float"%string.

(** The conversion of an [int] operand whose value is not known: it raises
    when the nearest binary64 number is out of range. *)
Definition float_of_int_checked (n : Z) : result float :=
  match float_of_int n with
  | S754_infinity _ => Err int_too_large
  | x => Ok x
  end.

(** [frames = config.duration * config.frame_rate] *)
Definition frames_product (d : float) (fps : Z) : result float :=
  r <- float_of_int_checked fps ;;
  Ok (float_mul d r).

(** The list [times] of [generate_frames]: the product [frames], which is
    not used but whose evaluation can raise, then the two loops. *)
Definition generate_frames (config : TimergenConfig) : result (list string) :=
  frames <- frames_product (duration config) (frame_rate config) ;;
  fill_times (fun t => format_time t (time_format config))
    (duration config) (frame_rate config).

(** The elapsed times that the two loops hand to [format_time], in frame
    order. *)
Definition frame_times (d : float) (fps : Z) : result (list Z) :=
  fill_times (fun t => Ok t) d fps.



(** The default of the option [--format]. *)
Definition default_time_format : string := "%M:%S.%-2m".

(** ** Diagnostic messages

    [message] prints on the standard error stream; what is printed is
    modelled as the list of the lines written. *)

Definition message (msg : string) (min v : Z) : list string :=
  if min <=? v then [msg] else [].

(** [create_message_funcs] builds four closures in a list comprehension.
    The body [message(msg, i, verbosity)] of each closure reads [i] when it
    is called: [i] is the variable of the comprehension, one cell that all
    the closures share and that the loop assigns at every step.  [verbosity]
    is a parameter of the enclosing call and is never assigned again. *)
Record msg_closure : Type := { closure_verbosity : Z }.

(** The loop of the comprehension: the cell of [i] and the closures made so
    far. *)
Fixpoint comprehension (verbosity : Z) (items : list Z)
  (cell : option Z) (made : list msg_closure)
  : option Z * list msg_closure :=
  match items with
  | [] => (cell, made)
  | i :: r =>
      comprehension verbosity r (Some i)
        (made ++ [{| closure_verbosity := verbosity |}])
  end.

(** A call of a closure, with the cell of [i] as the comprehension left
    it. *)
Definition call_closure (cell : Z) (c : msg_closure) (msg : string)
  : list string :=
  message msg cell (closure_verbosity c).

Definition create_message_funcs (verbosity : Z)
  : list (string -> list string) :=
  match comprehension verbosity (range 4) None [] with
  | (Some i, made) => map (call_closure i) made
  | (None, _) => []
  end.

(** ** Notions used in the statements *)

(** Text without [%]. *)
Definition no_percent (s : chars) : Prop := Forall (fun c => c <> "%") s.

(** Where the [%] characters of a text are. *)
Definition mask (s : chars) : list bool := map (fun c => Ascii.eqb c "%") s.

(** Two texts with their [%] at the same places are both refused or both
    accepted by the format operator, with results of one length. *)
Definition same_outcome (r1 r2 : result chars) : Prop :=
  match r1, r2 with
  | Ok a, Ok b => List.length a = List.length b
  | Err _, Err _ => True
  | _, _ => False
  end.

(** The exceptions [format_time] can raise. *)
Definition format_error (e : exn) : Prop :=
  e = width_cannot_be_0 \/ e = incomplete_format \/
  e = not_enough_arguments \/ e = requires_mapping \/
  e = width_too_big \/ e = precision_too_big.

(** The character of a decimal digit. *)
Definition digit_char (d : Z) : ascii := ascii_of_nat (48 + Z.to_nat d).

(** The two decimal digits of a number below 100. *)
Definition two_digits (n : Z) : string :=
  String (digit_char (n / 10)) (String (digit_char (n mod 10)) EmptyString).

Definition result_is (r : result string) (s : string) : bool :=
  match r with
  | Ok s' => String.eqb s' s
  | Err _ => false
  end.

(** A piece that [format_time] accepts: a copied character other than [%],
    the escape, or a directive whose stored width is not 0. *)
Definition valid_piece (p : piece) : bool :=
  match p with
  | PChar c => negb (Ascii.eqb c "%")
  | PMatch MPercent => true
  | PMatch (MDirective ds u) => negb (stored_width ds u =? 0)
  end.

Definition valid_pattern (fmt : chars) : bool :=
  forallb valid_piece (rx_scan fmt).

(** What a piece contributes to the label. *)
Definition render_piece (units : Z * Z * Z * Z) (p : piece) : chars :=
  match p with
  | PChar c => [c]
  | PMatch MPercent => ["%"]
  | PMatch (MDirective ds u) =>
      apply_slice (stored_width ds u)
        (padded (unit_value units u) (stored_width ds u) u)
  end.

(** A finite float whose value is an integer. *)
Definition float_integral (x : float) : bool :=
  match x with
  | S754_zero _ => true
  | S754_finite _ m e => (0 <=? e) || (Zpos m mod 2 ^ (- e) =? 0)
  | _ => false
  end.

(** The characters of [two_digits]. *)
Definition two_digit_chars (n : Z) : chars :=
  [digit_char (n / 10); digit_char (n mod 10)].

(** The three decimal digits of a number below 1000. *)
Definition three_digit_chars (n : Z) : chars :=
  [digit_char (n / 100); digit_char ((n / 10) mod 10); digit_char (n mod 10)].

(** The last [n] decimal digits of a number, with zeros on the left. *)
Fixpoint zdigits (n : nat) (v : Z) : chars :=
  match n with
  | O => []
  | S k => zdigits k (v / 10) ++ [digit_char (v mod 10)]
  end.

(** The characters of a decimal number as the library prints it. *)
Definition uint_chars (d : Decimal.uint) : chars :=
  list_ascii_of_string (NilEmpty.string_of_uint d).

(** Equality of texts, as a test. *)
Definition chars_eqb (a b : chars) : bool :=
  if list_eq_dec ascii_dec a b then true else false.

(** * Properties *)

(** ** Results and loops *)

Lemma bind_ok {A B : Type} (r : result A) (k : A -> result B) (b : B) :
  bind r k = Ok b -> exists a, r = Ok a /\ k a = Ok b.
Proof.
  destruct r as [a|e]; simpl; intros H; [exists a; auto | discriminate].
Qed.

Lemma fmap_ok {A B : Type} (f : A -> B) (r : result A) (b : B) :
  fmap f r = Ok b -> exists a, r = Ok a /\ b = f a.
Proof.
  unfold fmap; intros H; apply bind_ok in H as (a & Ha & Hb).
  exists a; split; [assumption | congruence].
Qed.

Lemma mapM_app {A B : Type} (f : A -> result B) (xs ys : list A) :
  mapM f (xs ++ ys) =
  (us <- mapM f xs ;; vs <- mapM f ys ;; Ok (us ++ vs)).
Proof.
  induction xs as [|x xs IH]; simpl.
  - destruct (mapM f ys); reflexivity.
  - destruct (f x) as [y|e]; simpl; [|reflexivity].
    rewrite IH. destruct (mapM f xs) as [us|e]; simpl; [|reflexivity].
    destruct (mapM f ys); reflexivity.
Qed.

(** A loop whose body never raises is a [map]. *)
Lemma mapM_total {A B : Type} (f : A -> result B) (g : A -> B) (xs : list A) :
  (forall x, In x xs -> f x = Ok (g x)) -> mapM f xs = Ok (map g xs).
Proof.
  induction xs as [|x xs IH]; simpl; intros H; [reflexivity|].
  rewrite (H x (or_introl eq_refl)); simpl.
  rewrite IH by (intros y Hy; apply H; right; exact Hy).
  reflexivity.
Qed.

(** When the body can raise one exception only, the loop raises it as soon
    as some item does. *)
Lemma mapM_single_error {A B : Type} (f : A -> result B) (e0 : exn)
  (xs : list A) (x : A) :
  (forall y e, f y = Err e -> e = e0) ->
  In x xs -> f x = Err e0 -> mapM f xs = Err e0.
Proof.
  intros Hone; induction xs as [|y ys IH]; simpl; [tauto|].
  intros [->|Hin] Hx.
  - rewrite Hx; reflexivity.
  - destruct (f y) as [b|e] eqn:Hy; simpl.
    + rewrite (IH Hin Hx); reflexivity.
    + rewrite (Hone _ _ Hy); reflexivity.
Qed.

Lemma mapM_error_from {A B : Type} (f : A -> result B) (xs : list A) (e : exn) :
  mapM f xs = Err e -> exists x, In x xs /\ f x = Err e.
Proof.
  induction xs as [|y ys IH]; simpl; [discriminate|].
  destruct (f y) as [b|e'] eqn:Hy; simpl.
  - destruct (mapM f ys) as [bs|e''] eqn:Hys; simpl; [discriminate|].
    intros [= <-]. destruct (IH eq_refl) as (x & Hin & Hx).
    exists x; auto.
  - intros [= <-]. exists y; auto.
Qed.

(** ** Time units *)

Lemma get_units_eq (t : Z) :
  get_units_from_milliseconds t =
  (t / 1000 / 60 / 60, (t / 1000 / 60) mod 60, (t / 1000) mod 60, t mod 1000).
Proof. reflexivity. Qed.

(** C5.  For every non-negative integer [t], decomposing [t] milliseconds
    into (hours, minutes, seconds, milliseconds) and recombining them by
    [((H*60+M)*60+S)*1000+m] gives [t] back, with hours non-negative,
    minutes and seconds in [0,59] and milliseconds in [0,999]. *)
Theorem units_round_trip (t : Z) :
  0 <= t ->
  let '(h, mi, s, ms) := get_units_from_milliseconds t in
  recombine (h, mi, s, ms) = t /\
  0 <= h /\ 0 <= mi <= 59 /\ 0 <= s <= 59 /\ 0 <= ms <= 999.
Proof.
  intros Ht. rewrite get_units_eq. unfold recombine.
  pose proof (Z.div_mod t 1000 ltac:(lia)) as H1.
  pose proof (Z.div_mod (t / 1000) 60 ltac:(lia)) as H2.
  pose proof (Z.div_mod (t / 1000 / 60) 60 ltac:(lia)) as H3.
  pose proof (Z.mod_pos_bound t 1000 ltac:(lia)) as B1.
  pose proof (Z.mod_pos_bound (t / 1000) 60 ltac:(lia)) as B2.
  pose proof (Z.mod_pos_bound (t / 1000 / 60) 60 ltac:(lia)) as B3.
  assert (0 <= t / 1000 / 60 / 60) by (repeat apply Z.div_pos; lia).
  repeat split; lia.
Qed.

Lemma units_round_trip_witness :
  recombine (get_units_from_milliseconds 3725007) = 3725007 /\
  get_units_from_milliseconds 3725007 = (1, 2, 5, 7).
Proof.
  pose proof (units_round_trip 3725007 ltac:(lia)) as H.
  split; [exact (proj1 H) | reflexivity].
Defined.

(** ** Directives with explicit digits *)

Lemma result_is_true (r : result string) (s : string) :
  result_is r s = true -> r = Ok s.
Proof.
  destruct r as [s'|e]; simpl; [|discriminate].
  intros H; apply String.eqb_eq in H; congruence.
Qed.

(** Only the milliseconds of the elapsed time reach a pattern made of one
    [m] directive. *)
Lemma format_time_m_only (t : Z) (ds : option chars) (fmt : string) :
  rx_scan (list_ascii_of_string fmt) = [PMatch (MDirective ds Um)] ->
  format_time t fmt = format_time (t mod 1000) fmt.
Proof.
  intros Hscan. unfold format_time, format_time_chars, rx_sub, sub_pieces.
  rewrite Hscan. rewrite !get_units_eq.
  cbn [mapM sub_piece replacer unit_value].
  rewrite Z.mod_mod by lia. reflexivity.
Qed.

Lemma below_1000_in_range (ms : Z) : 0 <= ms < 1000 -> In ms (range 1000).
Proof.
  intros H. unfold range. apply in_map_iff.
  exists (Z.to_nat ms). split; [lia|].
  apply in_seq. lia.
Qed.

Lemma last2_first2_below_1000 :
  forallb (fun ms =>
             result_is (format_time ms "%2m") (two_digits (ms mod 100)) &&
             result_is (format_time ms "%-2m") (two_digits (ms / 10)))
          (range 1000) = true.
Proof. vm_compute. reflexivity. Qed.

(** C3.  With explicit digits the stored width is the negation of the
    parsed integer, so that digits [n > 0] keep the last [n] characters of
    the padded value and digits [-n] keep the first [n]; [%2m] renders the
    last two digits of the milliseconds and [%-2m] the first two, and both
    render 999 as ["99"]. *)
Theorem explicit_width_is_negated :
  (forall ds u, stored_width (Some ds) u = - int_of_chars ds) /\
  (forall units ds u n, int_of_chars ds = n -> 0 < n ->
     replacer units (MDirective (Some ds) u) =
     Ok (slice_last (Z.to_nat n) (padded (unit_value units u) (- n) u))) /\
  (forall units ds u n, int_of_chars ds = - n -> 0 < n ->
     replacer units (MDirective (Some ds) u) =
     Ok (slice_first (Z.to_nat n) (padded (unit_value units u) n u))) /\
  (forall t, format_time t "%2m" = Ok (two_digits ((t mod 1000) mod 100))) /\
  (forall t, format_time t "%-2m" = Ok (two_digits ((t mod 1000) / 10))) /\
  format_time 999 "%2m" = Ok "99"%string /\
  format_time 999 "%-2m" = Ok "99"%string.
Proof.
  split; [reflexivity|].
  split.
  { intros units ds u n Hn Hpos. unfold replacer, stored_width, apply_slice.
    rewrite Hn. destruct (Z.eqb_spec (- n) 0) as [E|_]; [lia|].
    destruct (Z.ltb_spec (- n) 0) as [_|E]; [|lia].
    rewrite Z.opp_involutive. reflexivity. }
  split.
  { intros units ds u n Hn Hpos. unfold replacer, stored_width, apply_slice.
    rewrite Hn, Z.opp_involutive.
    destruct (Z.eqb_spec n 0) as [E|_]; [lia|].
    destruct (Z.ltb_spec n 0) as [E|_]; [lia|]. reflexivity. }
  assert (Hall : forall ms, 0 <= ms < 1000 ->
            format_time ms "%2m" = Ok (two_digits (ms mod 100)) /\
            format_time ms "%-2m" = Ok (two_digits (ms / 10))).
  { intros ms Hms.
    pose proof (proj1 (forallb_forall _ _) last2_first2_below_1000 ms
                  (below_1000_in_range ms Hms)) as H.
    apply andb_prop in H as [H1 H2].
    split; apply result_is_true; assumption. }
  split.
  { intros t. rewrite (format_time_m_only t (Some ["2"])) by reflexivity.
    apply Hall. apply Z.mod_pos_bound. lia. }
  split.
  { intros t. rewrite (format_time_m_only t (Some ["-"; "2"])) by reflexivity.
    apply Hall. apply Z.mod_pos_bound. lia. }
  split; reflexivity.
Qed.

Lemma explicit_width_is_negated_witness :
  replacer (0, 0, 0, 999) (MDirective (Some ["2"]) Um) = Ok ["9"; "9"] /\
  replacer (0, 0, 0, 987) (MDirective (Some ["-"; "2"]) Um) = Ok ["9"; "8"].
Proof.
  destruct explicit_width_is_negated as (_ & Hlast & Hfirst & _).
  split.
  - exact (Hlast (0, 0, 0, 999) ["2"] Um 2 eq_refl eq_refl).
  - exact (Hfirst (0, 0, 0, 987) ["-"; "2"] Um 2 eq_refl eq_refl).
Defined.

(** ** Scanning a pattern *)

Ltac ascii_cases c :=
  destruct c as [[] [] [] [] [] [] [] []]; try reflexivity; try congruence.

Lemma rx_match_not_percent (c : ascii) (r : chars) :
  c <> "%" -> rx_match (c :: r) = None.
Proof. intros H. unfold rx_match. ascii_cases c. Qed.

Lemma rx_match_escape (r : chars) :
  rx_match ("%" :: "%" :: r) = Some (MPercent, 2%nat).
Proof. reflexivity. Qed.

(** A [%] at which the pattern does not match is not followed by a [%]. *)
Lemma rx_match_none_next (c : ascii) (r : chars) :
  rx_match ("%" :: c :: r) = None -> c <> "%".
Proof. intros H ->. rewrite rx_match_escape in H. discriminate. Qed.

Lemma rx_scan_from_chars (pre s : chars) :
  Forall (fun c => c <> "%") pre ->
  rx_scan_from 0 (pre ++ s) = map PChar pre ++ rx_scan_from 0 s.
Proof.
  induction 1 as [|c pre Hc _ IH]; [reflexivity|].
  cbn [app rx_scan_from map]. rewrite (rx_match_not_percent c _ Hc).
  rewrite IH. reflexivity.
Qed.

Lemma rx_scan_escape (s : chars) :
  rx_scan ("%" :: "%" :: s) = PMatch MPercent :: rx_scan s.
Proof. reflexivity. Qed.

(** ** The format operator on text without conversion specifications *)

Lemma eqb_percent_false (c : ascii) : c <> "%" -> Ascii.eqb c "%" = false.
Proof. intros H. apply Ascii.eqb_neq. exact H. Qed.

Lemma py_format_app (a b : chars) :
  no_percent a ->
  py_format_from FText (a ++ b) = fmap (app a) (py_format_from FText b).
Proof.
  induction 1 as [|c a Hc _ IH]; cbn [app py_format_from].
  - destruct (py_format_from FText b); reflexivity.
  - rewrite (eqb_percent_false c Hc), IH.
    destruct (py_format_from FText b); reflexivity.
Qed.

Lemma py_format_no_percent (a : chars) : no_percent a -> py_format a = Ok a.
Proof.
  intros H. unfold py_format.
  rewrite <- (app_nil_r a) at 1. rewrite (py_format_app a [] H).
  cbn. rewrite app_nil_r. reflexivity.
Qed.

(** ** The substitution, piece by piece *)

Lemma sub_pieces_cons (repl : rmatch -> result chars) (p : piece)
  (ps : list piece) :
  sub_pieces repl (p :: ps) =
  (a <- sub_piece repl p ;; b <- sub_pieces repl ps ;; Ok (a ++ b)).
Proof.
  unfold sub_pieces, fmap. cbn [mapM].
  destruct (sub_piece repl p) as [a|e]; cbn; [|reflexivity].
  destruct (mapM (sub_piece repl) ps); reflexivity.
Qed.

Lemma sub_pieces_chars (repl : rmatch -> result chars) (pre : chars)
  (ps : list piece) :
  sub_pieces repl (map PChar pre ++ ps) = fmap (app pre) (sub_pieces repl ps).
Proof.
  induction pre as [|c pre IH]; cbn [map app].
  - destruct (sub_pieces repl ps); reflexivity.
  - rewrite sub_pieces_cons, IH. cbn.
    destruct (sub_pieces repl ps); reflexivity.
Qed.

(** ** The escape *)

(** C9.  The escape [%%] renders to a single [%]: the pattern ["%%"]
    renders to ["%"] at every elapsed time, and after literal text the
    escape contributes one [%] to the label, the rest of the pattern being
    rendered as it is on its own. *)
Theorem escape_renders_percent :
  (forall t, format_time t "%%" = Ok "%"%string) /\
  (forall t pre post, no_percent pre ->
     format_time_chars t (pre ++ "%" :: "%" :: post) =
     fmap (fun r => pre ++ "%" :: r) (format_time_chars t post)).
Proof.
  split; [reflexivity|].
  intros t pre post Hpre. unfold format_time_chars, rx_sub, rx_scan.
  rewrite (rx_scan_from_chars pre _ Hpre).
  change (rx_scan_from 0 ("%" :: "%" :: post))
    with (PMatch MPercent :: rx_scan_from 0 post).
  rewrite sub_pieces_chars, sub_pieces_cons. cbn [sub_piece replacer bind].
  destruct (sub_pieces _ (rx_scan_from 0 post)) as [text|e]; cbn;
    [|reflexivity].
  unfold py_format. rewrite (py_format_app pre _ Hpre).
  cbn [app py_format_from Ascii.eqb Bool.eqb].
  destruct (py_format_from FText text); reflexivity.
Qed.

Lemma escape_renders_percent_witness :
  format_time_chars 61000 ["1"; "0"; "0"; "%"; "%"; " "; "%"; "S"] =
  Ok ["1"; "0"; "0"; "%"; " "; "0"; "1"].
Proof.
  assert (H : no_percent ["1"; "0"; "0"]) by (repeat constructor; discriminate).
  exact (proj2 escape_renders_percent 61000 ["1"; "0"; "0"] [" "; "%"; "S"] H).
Defined.

(** ** What the replacement function returns *)

Lemma replacer_error (units : Z * Z * Z * Z) (ma : rmatch) (e : exn) :
  replacer units ma = Err e -> e = width_cannot_be_0.
Proof.
  destruct ma as [|ds u]; cbn; [discriminate|].
  destruct (stored_width ds u =? 0); congruence.
Qed.

Lemma replacer_zero (units : Z * Z * Z * Z) (ds : option chars) (u : unit_t) :
  stored_width ds u = 0 ->
  replacer units (MDirective ds u) = Err width_cannot_be_0.
Proof. intros H. cbn. rewrite H. reflexivity. Qed.

Lemma sub_piece_error (units : Z * Z * Z * Z) (p : piece) (e : exn) :
  sub_piece (replacer units) p = Err e -> e = width_cannot_be_0.
Proof.
  destruct p as [c|ma]; cbn; [discriminate | apply replacer_error].
Qed.

Lemma string_of_uint_no_percent (d : Decimal.uint) :
  no_percent (list_ascii_of_string (NilEmpty.string_of_uint d)).
Proof.
  induction d; cbn; constructor; try discriminate; assumption.
Qed.

Lemma str_no_percent (n : Z) : no_percent (str n).
Proof.
  unfold str. destruct (Z.to_int n) as [d|d]; cbn.
  - destruct d; try apply string_of_uint_no_percent.
    repeat constructor; discriminate.
  - constructor; [discriminate|].
    destruct d; try apply string_of_uint_no_percent.
    repeat constructor; discriminate.
Qed.

Lemma padded_no_percent (v dig : Z) (u : unit_t) : no_percent (padded v dig u).
Proof.
  unfold padded, rjust0, no_percent. apply Forall_app. split.
  - apply Forall_forall. intros c Hc. apply repeat_spec in Hc. subst c.
    discriminate.
  - apply str_no_percent.
Qed.

Lemma Forall_firstn {A : Type} (P : A -> Prop) (n : nat) (l : list A) :
  Forall P l -> Forall P (firstn n l).
Proof.
  intros H. rewrite <- (firstn_skipn n l) in H.
  apply Forall_app in H. tauto.
Qed.

Lemma Forall_skipn {A : Type} (P : A -> Prop) (n : nat) (l : list A) :
  Forall P l -> Forall P (skipn n l).
Proof.
  intros H. rewrite <- (firstn_skipn n l) in H.
  apply Forall_app in H. tauto.
Qed.

Lemma apply_slice_no_percent (dig : Z) (s : chars) :
  no_percent s -> no_percent (apply_slice dig s).
Proof.
  intros H. unfold apply_slice, slice_last, slice_first.
  destruct (dig <? 0); [apply Forall_skipn | apply Forall_firstn]; exact H.
Qed.

Lemma padded_length (v dig : Z) (u : unit_t) :
  (Z.to_nat (Z.abs dig) <= List.length (padded v dig u))%nat.
Proof.
  unfold padded, rjust0. rewrite length_app, repeat_length.
  pose proof (Z.le_max_l (Z.abs dig) (default_digs u)). lia.
Qed.

Lemma apply_slice_length (dig : Z) (s : chars) :
  dig <> 0 -> (Z.to_nat (Z.abs dig) <= List.length s)%nat ->
  List.length (apply_slice dig s) = Z.to_nat (Z.abs dig).
Proof.
  intros Hd Hl. unfold apply_slice, slice_last, slice_first.
  destruct (Z.ltb_spec dig 0).
  - rewrite length_skipn. lia.
  - rewrite length_firstn. lia.
Qed.

(** A replacement is either the doubled [%] of the escape or text without
    [%]. *)
Lemma replacer_ok (units : Z * Z * Z * Z) (ma : rmatch) (a : chars) :
  replacer units ma = Ok a ->
  (ma = MPercent /\ a = ["%"; "%"]) \/
  (exists ds u, ma = MDirective ds u /\ stored_width ds u <> 0 /\
                no_percent a /\
                List.length a = Z.to_nat (Z.abs (stored_width ds u))).
Proof.
  destruct ma as [|ds u]; cbn.
  - intros [= <-]. left. auto.
  - destruct (Z.eqb_spec (stored_width ds u) 0) as [E|E]; [discriminate|].
    intros [= <-]. right. exists ds, u. repeat split; try assumption.
    + apply apply_slice_no_percent, padded_no_percent.
    + apply apply_slice_length; [assumption | apply padded_length].
Qed.

(** ** Zero widths *)

(** C7.  A pattern in which the scan finds a directive of stored width 0
    is rejected at every elapsed time with the [ValueError] whose message is
    "width cannot be 0"; ["%0H"] is such a pattern. *)
Theorem zero_width_fails (t : Z) (fmt : string) (ds : option chars)
  (u : unit_t) :
  In (PMatch (MDirective ds u)) (rx_scan (list_ascii_of_string fmt)) ->
  stored_width ds u = 0 ->
  format_time t fmt = Err (ValueError "width cannot be 0"%string).
Proof.
  intros Hin Hw. unfold format_time, format_time_chars, rx_sub, sub_pieces.
  rewrite (mapM_single_error _ width_cannot_be_0 _ _
             (sub_piece_error _) Hin (replacer_zero _ ds u Hw)).
  reflexivity.
Qed.

Lemma zero_width_fails_witness :
  format_time 0 "%0H" = Err (ValueError "width cannot be 0"%string).
Proof.
  apply (zero_width_fails 0 "%0H" (Some ["0"]) UH).
  - left. reflexivity.
  - reflexivity.
Defined.

(** ** A [%] outside every match *)

(** Inside a conversion specification the operator can only fail. *)
Lemma py_format_in_spec (s : chars) (st : fstate) :
  st <> FText -> st <> FStart ->
  exists e, py_format_from st s = Err e /\ format_error e.
Proof.
  revert st. induction s as [|c r IH]; intros st H1 H2.
  - exists incomplete_format. unfold format_error.
    destruct st; cbn; try contradiction; tauto.
  - assert (Hnext : forall st', next_state st c = Goto st' ->
                      st' <> FText /\ st' <> FStart).
    { intros st'. destruct st; unfold next_state; try discriminate;
        repeat match goal with
               | |- context [if ?b then _ else _] => destruct b
               end;
        intros [= <-]; split; discriminate. }
    assert (Hraise : forall e, next_state st c = Raise e -> format_error e).
    { intros e. unfold format_error.
      destruct st; unfold next_state; try discriminate;
        repeat match goal with
               | |- context [if ?b then _ else _] => destruct b
               end;
        intros [= <-]; tauto. }
    destruct st; try contradiction; cbn [py_format_from];
      (destruct (next_state _ c) as [st'| |e] eqn:E;
       [ destruct (Hnext st' eq_refl); apply IH; assumption
       | exists not_enough_arguments; unfold format_error; tauto
       | exists e; split; [reflexivity | apply Hraise; reflexivity] ]).
Qed.

Lemma py_format_start (c : ascii) (r : chars) :
  c <> "%" -> exists e, py_format_from FStart (c :: r) = Err e /\ format_error e.
Proof.
  intros Hc. cbn [py_format_from]. rewrite (eqb_percent_false c Hc).
  destruct (Ascii.eqb c "(").
  - exists requires_mapping. unfold format_error. tauto.
  - destruct (next_state FStart c) as [st'| |e] eqn:E.
    + apply py_format_in_spec;
        intros ->; unfold next_state in E;
        repeat match type of E with
               | context [if ?b then _ else _] => destruct b
               end; discriminate.
    + exists not_enough_arguments. unfold format_error. tauto.
    + exfalso. unfold next_state in E.
      repeat match type of E with
             | context [if ?b then _ else _] => destruct b
             end; discriminate.
Qed.

Lemma fmap_error {A B : Type} (f : A -> B) (r : result A) (e : exn) :
  r = Err e -> fmap f r = Err e.
Proof. intros ->. reflexivity. Qed.

(** The text the substitution builds around a copied [%] is refused by the
    format operator. *)
Lemma dangling_text_fails (units : Z * Z * Z * Z) (s : chars) :
  forall (skip : nat) (text : chars),
    In (PChar "%") (rx_scan_from skip s) ->
    sub_pieces (replacer units) (rx_scan_from skip s) = Ok text ->
    exists e, py_format_from FText text = Err e /\ format_error e.
Proof.
  induction s as [|c r IH]; intros skip text Hin Hsub; [destruct Hin|].
  destruct skip as [|k]; [|exact (IH k text Hin Hsub)].
  cbn [rx_scan_from] in Hin, Hsub.
  destruct (rx_match (c :: r)) as [[ma n]|] eqn:Hm.
  - destruct Hin as [Hin|Hin]; [discriminate|].
    rewrite sub_pieces_cons in Hsub.
    apply bind_ok in Hsub as (a & Ha & Hsub).
    apply bind_ok in Hsub as (b & Hb & [= <-]).
    destruct (IH _ b Hin Hb) as (e & He & Hfe).
    exists e. split; [|exact Hfe].
    cbn [sub_piece] in Ha.
    destruct (replacer_ok _ _ _ Ha) as [[_ ->]|(ds & u & _ & _ & Hnp & _)].
    + cbn. apply fmap_error. exact He.
    + rewrite (py_format_app a b Hnp). apply fmap_error. exact He.
  - rewrite sub_pieces_cons in Hsub. cbn [sub_piece bind] in Hsub.
    apply bind_ok in Hsub as (b & Hb & [= <-]). cbn [app].
    destruct (ascii_dec c "%") as [->|Hc].
    + cbn [py_format_from Ascii.eqb Bool.eqb]. clear Hin IH.
      destruct r as [|c' r'].
      * cbn in Hb. injection Hb as <-.
        exists incomplete_format. unfold format_error. cbn. auto.
      * pose proof (rx_match_none_next c' r' Hm) as Hc'.
        cbn [rx_scan_from] in Hb.
        rewrite (rx_match_not_percent c' r' Hc') in Hb.
        rewrite sub_pieces_cons in Hb. cbn [sub_piece bind] in Hb.
        apply bind_ok in Hb as (b' & _ & [= <-]). cbn [app].
        apply py_format_start. exact Hc'.
    + destruct Hin as [Hin|Hin]; [congruence|].
      destruct (IH _ b Hin Hb) as (e & He & Hfe).
      exists e. split; [|exact Hfe].
      cbn [py_format_from]. rewrite (eqb_percent_false c Hc).
      apply fmap_error. exact He.
Qed.

(** C8.  A pattern in which some [%] lies outside every escape and
    directive is rejected at every elapsed time: [format_time] raises, either
    the zero width error of the substitution or one of the five errors of
    the format operator (incomplete format, not enough arguments, format
    requires a mapping, width too big, precision too big), and returns no
    text. *)
Theorem dangling_percent_fails (t : Z) (fmt : string) :
  In (PChar "%") (rx_scan (list_ascii_of_string fmt)) ->
  exists e, format_time t fmt = Err e /\ format_error e.
Proof.
  intros Hin. unfold format_time, format_time_chars, rx_sub.
  destruct (sub_pieces _ _) as [text|e] eqn:Hsub.
  - destruct (dangling_text_fails _ _ 0%nat text Hin Hsub) as (e & He & Hfe).
    exists e. split; [|exact Hfe].
    cbn [bind]. unfold py_format. rewrite He. reflexivity.
  - exists e. split; [reflexivity|].
    unfold sub_pieces, fmap in Hsub.
    destruct (mapM _ _) as [outs|e'] eqn:Hm; [discriminate|].
    injection Hsub as ->.
    apply mapM_error_from in Hm as (p & _ & Hp).
    left. exact (sub_piece_error _ _ _ Hp).
Qed.

Lemma dangling_percent_fails_witness :
  exists e, format_time 5000 "%5% and %S %d" = Err e /\ format_error e.
Proof.
  apply dangling_percent_fails. left. reflexivity.
Defined.

(** Each of the six errors is raised by some pattern.  The last two need
    a rendered directive: the digits that follow the [%] come from the
    hours. *)
Lemma format_errors_reached :
  format_time 0 "%0H" = Err width_cannot_be_0 /\
  format_time 0 "100%" = Err incomplete_format /\
  format_time 0 "%d" = Err not_enough_arguments /\
  format_time 0 "%(H)" = Err requires_mapping /\
  format_time 0 "%5%20H" = Err width_too_big /\
  format_time 0 "%.3%10H" = Err precision_too_big /\
  format_time 0 "%5%18H" = Err incomplete_format /\
  format_time 0 "%.2%9H" = Err incomplete_format.
Proof. repeat split; vm_compute; reflexivity. Qed.

(** The two limits of the format operator are those of a width that fits
    [Py_ssize_t] and of a precision that fits [int]. *)
Lemma format_operator_limits :
  py_format (list_ascii_of_string "%9223372036854775807d") =
    Err not_enough_arguments /\
  py_format (list_ascii_of_string "%9223372036854775808d") =
    Err width_too_big /\
  py_format (list_ascii_of_string "%.2147483647d") =
    Err not_enough_arguments /\
  py_format (list_ascii_of_string "%.2147483648d") =
    Err precision_too_big /\
  py_format (list_ascii_of_string "%-0 9223372036854775800") =
    Err incomplete_format /\
  py_format (list_ascii_of_string "%.09999999999") =
    Err precision_too_big.
Proof. repeat split; vm_compute; reflexivity. Qed.

(** ** Widths of rendered directives and labels *)

Lemma mask_no_percent (s : chars) :
  no_percent s -> mask s = repeat false (List.length s).
Proof.
  induction 1 as [|c s Hc _ IH]; cbn; [reflexivity|].
  rewrite (eqb_percent_false c Hc). f_equal. exact IH.
Qed.

Lemma mask_app (a b : chars) : mask (a ++ b) = mask a ++ mask b.
Proof. apply map_app. Qed.

Lemma same_outcome_fmap_cons (c1 c2 : ascii) (r1 r2 : result chars) :
  same_outcome r1 r2 -> same_outcome (fmap (cons c1) r1) (fmap (cons c2) r2).
Proof.
  destruct r1, r2; cbn; auto.
Qed.

Lemma py_format_mask (s1 : chars) :
  forall (s2 : chars) (st : fstate),
    mask s1 = mask s2 -> st = FText \/ st = FStart ->
    same_outcome (py_format_from st s1) (py_format_from st s2).
Proof.
  induction s1 as [|c1 r1 IH]; intros [|c2 r2] st Hm Hst;
    try discriminate Hm.
  - destruct Hst as [-> | ->]; cbn; auto.
  - cbn [mask map] in Hm. injection Hm as Hc Hr.
    destruct (Ascii.eqb c1 "%") eqn:E1; symmetry in Hc.
    + apply Ascii.eqb_eq in E1, Hc. subst c1 c2.
      destruct Hst as [-> | ->]; cbn [py_format_from Ascii.eqb Bool.eqb].
      * apply IH; auto.
      * apply same_outcome_fmap_cons, IH; auto.
    + apply Ascii.eqb_neq in E1, Hc.
      destruct Hst as [-> | ->].
      * cbn [py_format_from].
        rewrite (eqb_percent_false c1 E1), (eqb_percent_false c2 Hc).
        apply same_outcome_fmap_cons, IH; auto.
      * destruct (py_format_start c1 r1 E1) as (e1 & -> & _).
        destruct (py_format_start c2 r2 Hc) as (e2 & -> & _).
        exact I.
Qed.

(** The substitution puts the [%] at the same places whatever the time. *)
Lemma sub_piece_mask (u1 u2 : Z * Z * Z * Z) (p : piece) :
  match sub_piece (replacer u1) p, sub_piece (replacer u2) p with
  | Ok a, Ok b => mask a = mask b
  | Err e1, Err e2 => e1 = e2
  | _, _ => False
  end.
Proof.
  destruct p as [c|[|ds u]]; cbn; try reflexivity.
  destruct (stored_width ds u =? 0) eqn:E; [reflexivity|].
  apply Z.eqb_neq in E.
  rewrite !mask_no_percent
    by (apply apply_slice_no_percent, padded_no_percent).
  rewrite !apply_slice_length by (try assumption; apply padded_length).
  reflexivity.
Qed.

Lemma sub_pieces_mask (u1 u2 : Z * Z * Z * Z) (ps : list piece) :
  match sub_pieces (replacer u1) ps, sub_pieces (replacer u2) ps with
  | Ok a, Ok b => mask a = mask b
  | Err e1, Err e2 => e1 = e2
  | _, _ => False
  end.
Proof.
  induction ps as [|p ps IH]; [reflexivity|].
  rewrite !sub_pieces_cons.
  pose proof (sub_piece_mask u1 u2 p) as Hp.
  destruct (sub_piece (replacer u1) p) as [a1|e1],
           (sub_piece (replacer u2) p) as [a2|e2]; cbn; try tauto.
  destruct (sub_pieces (replacer u1) ps) as [b1|e1],
           (sub_pieces (replacer u2) ps) as [b2|e2]; cbn; try tauto.
  rewrite !mask_app. congruence.
Qed.

Lemma format_time_chars_outcome (t1 t2 : Z) (fmt : chars) :
  same_outcome (format_time_chars t1 fmt) (format_time_chars t2 fmt).
Proof.
  unfold format_time_chars, rx_sub.
  pose proof (sub_pieces_mask (get_units_from_milliseconds t1)
                (get_units_from_milliseconds t2) (rx_scan fmt)) as H.
  destruct (sub_pieces (replacer (get_units_from_milliseconds t1)) _) as [a|e1];
  destruct (sub_pieces (replacer (get_units_from_milliseconds t2)) _) as [b|e2];
    cbn [bind]; try tauto; [|exact I].
  apply py_format_mask; auto.
Qed.

Lemma string_of_list_ascii_length (l : chars) :
  String.length (string_of_list_ascii l) = List.length l.
Proof. induction l; cbn; congruence. Qed.

(** C10.  The text put in place of a directive of stored width [w <> 0] has
    exactly [|w|] characters, whatever the elapsed time; without digits the
    stored width is the default one, which keeps the last 2 characters for
    [H], [M], [S] and the first 3 for [m]; hence two labels rendered from one
    pattern have the same length. *)
Theorem directive_text_width :
  (forall units ds u, stored_width ds u <> 0 ->
     exists a, replacer units (MDirective ds u) = Ok a /\
               Z.of_nat (List.length a) = Z.abs (stored_width ds u)) /\
  (forall units u,
     replacer units (MDirective None u) =
     Ok (match u with
         | Um => slice_first 3 (padded (unit_value units u) 3 u)
         | _ => slice_last 2 (padded (unit_value units u) (-2) u)
         end)) /\
  (forall fmt t1 t2 s1 s2,
     format_time t1 fmt = Ok s1 -> format_time t2 fmt = Ok s2 ->
     String.length s1 = String.length s2).
Proof.
  split; [|split].
  - intros units ds u Hw. cbn.
    destruct (Z.eqb_spec (stored_width ds u) 0) as [E|_]; [contradiction|].
    eexists. split; [reflexivity|].
    rewrite apply_slice_length by (try assumption; apply padded_length).
    lia.
  - intros units []; reflexivity.
  - intros fmt t1 t2 s1 s2 H1 H2. unfold format_time in H1, H2.
    apply fmap_ok in H1 as (a & Ha & ->).
    apply fmap_ok in H2 as (b & Hb & ->).
    pose proof (format_time_chars_outcome t1 t2 (list_ascii_of_string fmt)) as H.
    rewrite Ha, Hb in H. cbn in H.
    rewrite !string_of_list_ascii_length. exact H.
Qed.

Lemma directive_text_width_witness :
  (exists a, replacer (100, 2, 5, 7) (MDirective (Some ["4"]) UH) = Ok a /\
             Z.of_nat (List.length a) = 4) /\
  String.length "01:02:05.007" = String.length "27:46:39.999".
Proof.
  destruct directive_text_width as (Hw & _ & Hlen).
  split.
  - apply (Hw (100, 2, 5, 7) (Some ["4"]) UH). discriminate.
  - apply (Hlen "%H:%M:%S.%m"%string 3725007 99999999); reflexivity.
Defined.

(** ** The padding of a directive *)

(** C1.  The padding width is [max(abs(dig), default_digs[u])] with the
    signed default, which is negative for [H], [M] and [S]: for these units
    the floor of 2 characters is not applied.  At 5 seconds the directive
    [%-1S] pads ["5"] to one character only and renders ["5"], where padding
    to [max(1, 2)] characters would give ["05"] and render ["0"]; the tens
    digit is rendered at 15 seconds.  For [m], whose default is positive,
    the floor is applied. *)
Theorem padding_floor_missing :
  padded 5 1 US = ["5"] /\
  Z.of_nat (List.length (padded 5 1 US)) <
    Z.max (Z.abs 1) (Z.abs (default_digs US)) /\
  format_time 5000 "%-1S" = Ok "5"%string /\
  format_time 15000 "%-1S" = Ok "1"%string /\
  (forall v w,
     Z.max (Z.abs w) (Z.abs (default_digs Um)) <=
     Z.of_nat (List.length (padded v w Um))).
Proof.
  repeat split; try reflexivity.
  intros v w. unfold padded, rjust0. rewrite length_app, repeat_length.
  cbn [default_digs]. lia.
Qed.

(** ** The offsets within a second *)

Lemma accumulate_from_repeat (step : Z) (k : nat) :
  forall total,
    accumulate_from total (repeat step k) =
    map (fun j => total + Z.of_nat (S j) * step) (seq 0 k).
Proof.
  induction k as [|k IH]; intros total; [reflexivity|].
  cbn [repeat accumulate_from seq map]. f_equal; [lia|].
  rewrite IH, <- seq_shift, map_map.
  apply map_ext. intros j. lia.
Qed.

Lemma millis_counts_positive (fps : Z) :
  0 < fps ->
  millis_counts fps = Ok (map (fun j => j * (1000 / fps)) (range fps)).
Proof.
  intros Hfps. unfold millis_counts, floordiv, list_times.
  destruct (Z.eqb_spec fps 0) as [E|_]; [lia|].
  destruct (Z.ltb_spec (fps - 1) (- 2 ^ 63)) as [E|_]; [lia|].
  cbn [bind app accumulate]. unfold range.
  replace (Z.to_nat fps) with (S (Z.to_nat (fps - 1))) by lia.
  rewrite accumulate_from_repeat. cbn [seq map]. f_equal. f_equal.
  rewrite <- seq_shift, !map_map. apply map_ext. intros j. lia.
Qed.

Lemma millis_counts_negative (fps : Z) :
  - 2 ^ 63 < fps < 0 -> millis_counts fps = Ok [0].
Proof.
  intros Hfps. unfold millis_counts, floordiv, list_times.
  destruct (Z.eqb_spec fps 0) as [E|_]; [lia|].
  destruct (Z.ltb_spec (fps - 1) (- 2 ^ 63)) as [E|_]; [lia|].
  cbn [bind app accumulate]. replace (Z.to_nat (fps - 1)) with 0%nat by lia.
  reflexivity.
Qed.

Lemma millis_counts_too_negative (fps : Z) :
  fps <= - 2 ^ 63 -> millis_counts fps = Err cannot_fit_index.
Proof.
  intros Hfps. unfold millis_counts, floordiv, list_times.
  destruct (Z.eqb_spec fps 0) as [E|_]; [lia|].
  destruct (Z.ltb_spec (fps - 1) (- 2 ^ 63)) as [_|E]; [reflexivity | lia].
Qed.


(** ** The two loops *)

Lemma concat_map_filter {A B : Type} (c : A -> bool) (f : A -> B)
  (l : list A) :
  List.concat (map (fun x => if c x then [f x] else []) l) =
  map f (filter c l).
Proof.
  induction l as [|x l IH]; [reflexivity|].
  cbn [map List.concat filter]. rewrite IH. destruct (c x); reflexivity.
Qed.

Lemma whole_seconds_times (d : float) (fps n : Z) (offs : list Z) :
  py_int d = Ok n -> millis_counts fps = Ok offs ->
  whole_seconds (fun t => Ok t) d fps =
  Ok (flat_map (fun i => map (fun j => i * 1000 + j) offs) (range n)).
Proof.
  intros Hn Hoffs. unfold whole_seconds. rewrite Hn. cbn [bind].
  rewrite (mapM_total _ (fun i => map (fun j => i * 1000 + j) offs)).
  - cbn. rewrite flat_map_concat_map. reflexivity.
  - intros i _. rewrite Hoffs. cbn [bind].
    apply mapM_total. reflexivity.
Qed.

Lemma partial_second_times (d : float) (fps sec : Z) (offs : list Z) :
  millis_counts fps = Ok offs ->
  py_int (float_add d (float_of_int 1)) = Ok sec ->
  partial_second (fun t => Ok t) d fps =
  Ok (map (fun o => sec * 1000 + o)
        (filter (fun o => int_lt_float o (frac_millis d)) offs)).
Proof.
  intros Hoffs Hsec. unfold partial_second. rewrite Hoffs, Hsec. cbn [bind].
  fold (frac_millis d).
  rewrite (mapM_total _
             (fun i => if int_lt_float i (frac_millis d)
                       then [sec * 1000 + i] else [])).
  - cbn. rewrite concat_map_filter. reflexivity.
  - intros i _. destruct (int_lt_float i (frac_millis d)); reflexivity.
Qed.

Lemma py_int_nonneg (d : float) :
  float_nonneg d = true -> py_int d = Ok (float_floor d).
Proof.
  destruct d as [s|s| |s m e]; cbn; try discriminate; [reflexivity|].
  destruct s; [discriminate|]. intros _. cbn [cond_Zopp]. f_equal.
  destruct (Z.leb_spec 0 e).
  - apply Z.shiftl_mul_pow2. assumption.
  - apply Z.shiftl_div_pow2. lia.
Qed.

(** C4.  For a finite duration [d >= 0] and a positive frame rate, the
    first loop gives, for each second [i] of [0 .. floor(d) - 1] in turn,
    the [fps] elapsed times [i*1000 + j*(1000//fps)] for [j = 0 .. fps-1] in
    this order, the offset starting again from 0 in every second; these
    entries come first in the schedule, before those of the partial
    second. *)
Theorem whole_seconds_schedule (d : float) (fps : Z) :
  float_nonneg d = true -> 0 < fps ->
  let block := fun i => map (fun j => i * 1000 + j * (1000 / fps)) (range fps) in
  whole_seconds (fun t => Ok t) d fps =
    Ok (flat_map block (range (float_floor d))) /\
  (forall i, Z.of_nat (List.length (block i)) = fps /\
             hd_error (block i) = Some (i * 1000) /\
             StronglySorted Z.le (block i)) /\
  (forall tl, partial_second (fun t => Ok t) d fps = Ok tl ->
     frame_times d fps = Ok (flat_map block (range (float_floor d)) ++ tl)).
Proof.
  intros Hd Hfps block.
  assert (Hwhole : whole_seconds (fun t => Ok t) d fps =
                   Ok (flat_map block (range (float_floor d)))).
  { rewrite (whole_seconds_times d fps _ _ (py_int_nonneg d Hd)
               (millis_counts_positive fps Hfps)).
    f_equal. apply flat_map_ext. intros i. unfold block.
    rewrite map_map. reflexivity. }
  split; [exact Hwhole|]. split.
  - intros i. unfold block, range. split; [|split].
    + rewrite !length_map, length_seq. lia.
    + replace (Z.to_nat fps) with (S (Z.to_nat (fps - 1))) by lia.
      cbn. f_equal. lia.
    + rewrite map_map.
      assert (Hstep : 0 <= 1000 / fps) by (apply Z.div_pos; lia).
      generalize 0%nat as a. generalize (Z.to_nat fps) as k.
      induction k as [|k IH]; intros a; cbn [seq map]; constructor.
      * apply IH.
      * apply Forall_forall. intros x Hx. apply in_map_iff in Hx.
        destruct Hx as (j & <- & Hj). apply in_seq in Hj. nia.
  - intros tl Htl. unfold frame_times, fill_times.
    rewrite Hwhole, Htl. reflexivity.
Qed.

Lemma whole_seconds_schedule_witness :
  whole_seconds (fun t => Ok t) (dyadic 5 (-1)) 4 =
    Ok [0; 250; 500; 750; 1000; 1250; 1500; 1750] /\
  frame_times (dyadic 5 (-1)) 4 =
    Ok [0; 250; 500; 750; 1000; 1250; 1500; 1750; 3000; 3250].
Proof.
  destruct (whole_seconds_schedule (dyadic 5 (-1)) 4 eq_refl eq_refl)
    as (Hwhole & _ & Hall).
  split.
  - exact Hwhole.
  - exact (Hall [3000; 3250] eq_refl).
Defined.

(** ** Labels and elapsed times *)

Lemma mapM_map {A B C : Type} (f : B -> result C) (h : A -> B) (l : list A) :
  mapM f (map h l) = mapM (fun x => f (h x)) l.
Proof.
  induction l as [|x l IH]; [reflexivity|]. cbn [map mapM]. rewrite IH.
  reflexivity.
Qed.

Lemma mapM_flat_map {A B C : Type} (f : B -> result C) (g : A -> list B)
  (l : list A) :
  mapM f (flat_map g l) =
  fmap (@List.concat C) (mapM (fun x => mapM f (g x)) l).
Proof.
  induction l as [|x l IH]; [reflexivity|].
  cbn [flat_map mapM]. rewrite mapM_app, IH.
  destruct (mapM f (g x)) as [us|e]; cbn; [|reflexivity].
  destruct (mapM (fun x0 => mapM f (g x0)) l); reflexivity.
Qed.

(** The labels of [generate_frames] are those of the elapsed times of the
    schedule, in order. *)
Lemma fill_times_labels {A : Type} (label : Z -> result A)
  (d : float) (fps : Z) (ts : list Z) :
  frame_times d fps = Ok ts ->
  fill_times label d fps = mapM label ts.
Proof.
  unfold frame_times, fill_times. intros H.
  apply bind_ok in H as (w & Hw & H).
  apply bind_ok in H as (tl & Htl & [= <-]).
  unfold whole_seconds in Hw. apply bind_ok in Hw as (n & Hn & Hw).
  unfold partial_second in Htl. apply bind_ok in Htl as (offs & Hoffs & Htl).
  assert (Hw' : w = flat_map (fun i => map (fun j => i * 1000 + j) offs)
                      (range n)).
  { pose proof (whole_seconds_times d fps n offs Hn Hoffs) as E.
    unfold whole_seconds in E. rewrite Hn in E. cbn [bind] in E.
    congruence. }
  assert (Hwhole : whole_seconds label d fps = mapM label w).
  { unfold whole_seconds. rewrite Hn. cbn [bind]. subst w.
    rewrite mapM_flat_map, Hoffs. cbn [bind]. f_equal. clear Hw.
    induction (range n) as [|i l IH]; [reflexivity|].
    cbn [mapM]. rewrite IH, mapM_map. reflexivity. }
  assert (Htail : partial_second label d fps = mapM label tl).
  { unfold partial_second. rewrite Hoffs. cbn [bind]. clear Hoffs Hw Hw'.
    revert tl Htl.
    destruct (py_int (float_add d (float_of_int 1))) as [sec|e]; cbn [bind];
      induction offs as [|i offs IH]; intros tl Htl;
      try (cbn in Htl; injection Htl as <-; reflexivity);
      cbn [mapM] in Htl |- *;
      destruct (int_lt_float i _); cbn [bind] in Htl |- *;
      try discriminate;
      (destruct (mapM _ offs) as [rest|e'] eqn:Hrest in Htl;
       [|discriminate]);
      cbn in Htl; injection Htl as <-;
      specialize (IH (List.concat rest));
      rewrite Hrest in IH; specialize (IH eq_refl);
      cbn [mapM]; rewrite <- IH; unfold fmap.
    - destruct (label (sec * 1000 + i)) as [x|e]; cbn [bind]; [|reflexivity].
      destruct (mapM _ offs); reflexivity.
    - destruct (mapM _ offs); reflexivity.
    - destruct (mapM _ offs); reflexivity. }
  rewrite Hwhole, Htail, mapM_app.
  destruct (mapM label w); cbn; [|reflexivity].
  destruct (mapM label tl); reflexivity.
Qed.

(** ** The partial second *)

(** C2.  The second loop labels its frames with [int(duration + 1)], the
    sum being a binary64 addition.  For the duration 0.9999999999999999,
    that is [(2^53 - 1) / 2^53], the fractional part is positive and the
    floor is 0, but the sum rounds to 2.0: at 4 frames per second all four
    offsets are below the threshold and the frames are labelled 2000, 2250,
    2500 and 2750, where [(floor(duration) + 1) * 1000 + offset] gives 1000,
    1250, 1500 and 1750. *)
Theorem partial_second_label_rounds_up :
  let d := S754_finite false 9007199254740991 (-53) in
  valid_binary prec emax d = true /\
  float_floor d = 0 /\
  float_mod_one d = d /\
  float_add d (float_of_int 1) = dyadic 2 0 /\
  py_int (float_add d (float_of_int 1)) = Ok 2 /\
  filter (fun o => int_lt_float o (frac_millis d)) [0; 250; 500; 750] =
    [0; 250; 500; 750] /\
  frame_times d 4 = Ok [2000; 2250; 2500; 2750] /\
  map (fun o => (float_floor d + 1) * 1000 + o) [0; 250; 500; 750] =
    [1000; 1250; 1500; 1750].
Proof. cbv zeta. repeat split; vm_compute; reflexivity. Qed.

(** ** The conversion of the frame rate to [float] *)

Lemma digits2_pos_lower (p : positive) :
  2 ^ (Zpos (digits2_pos p) - 1) <= Zpos p.
Proof.
  induction p as [p IH|p IH|]; cbn [digits2_pos]; [| |cbn; lia].
  - rewrite Pos2Z.inj_succ.
    replace (Z.succ (Zpos (digits2_pos p)) - 1)
      with (Z.succ (Zpos (digits2_pos p) - 1)) by lia.
    rewrite Z.pow_succ_r by lia. lia.
  - rewrite Pos2Z.inj_succ.
    replace (Z.succ (Zpos (digits2_pos p)) - 1)
      with (Z.succ (Zpos (digits2_pos p) - 1)) by lia.
    rewrite Z.pow_succ_r by lia. lia.
Qed.

Lemma Zdigits2_upper (m k : Z) :
  0 <= k -> 0 <= m < 2 ^ k -> 0 <= Zdigits2 m <= k.
Proof.
  intros Hk Hm. destruct m as [|p|p]; cbn [Zdigits2]; [lia| |lia].
  split; [lia|].
  destruct (Z.le_gt_cases (Zpos (digits2_pos p)) k) as [H|H]; [exact H|].
  pose proof (digits2_pos_lower p) as Hl.
  assert (2 ^ k <= 2 ^ (Zpos (digits2_pos p) - 1))
    by (apply Z.pow_le_mono_r; lia).
  lia.
Qed.

Lemma shr_1_le (mrs : shr_record) :
  0 <= shr_m mrs -> 0 <= shr_m (shr_1 mrs) <= shr_m mrs.
Proof.
  destruct mrs as [m r s]. cbn [shr_m]. intros Hm.
  destruct m as [|[p|p|]|p]; cbn; lia.
Qed.

Lemma iter_shr_1_le (p : positive) :
  forall mrs, 0 <= shr_m mrs -> 0 <= shr_m (iter_pos shr_1 p mrs) <= shr_m mrs.
Proof.
  induction p as [p IH|p IH|]; intros mrs Hm; cbn [iter_pos].
  - pose proof (shr_1_le mrs Hm) as H1.
    pose proof (IH _ (proj1 H1)) as H2.
    pose proof (IH _ (proj1 H2)) as H3. lia.
  - pose proof (IH _ Hm) as H2.
    pose proof (IH _ (proj1 H2)) as H3. lia.
  - apply shr_1_le, Hm.
Qed.

Lemma shr_record_of_loc_m (m : Z) (l : location) :
  shr_m (shr_record_of_loc m l) = m.
Proof. destruct l as [|[ | | ]]; reflexivity. Qed.

Lemma shr_fexp_le (m e : Z) (l : location) :
  0 <= m ->
  0 <= shr_m (fst (shr_fexp prec emax m e l)) <= m /\
  snd (shr_fexp prec emax m e l) <=
    Z.max e (fexp prec emax (Zdigits2 m + e)).
Proof.
  intros Hm. unfold shr_fexp, shr.
  destruct (fexp prec emax (Zdigits2 m + e) - e) as [|p|p] eqn:E;
    cbn [fst snd]; rewrite ?shr_record_of_loc_m; try lia.
  split; [|lia].
  pose proof (iter_shr_1_le p (shr_record_of_loc m l)) as H.
  rewrite shr_record_of_loc_m in H. auto.
Qed.

Lemma round_nearest_even_le (m : Z) (l : location) :
  0 <= m -> 0 <= round_nearest_even m l <= m + 1.
Proof.
  intros Hm. destruct l as [|[ | | ]]; cbn [round_nearest_even];
    try destruct (Z.even m); lia.
Qed.

Lemma fexp_le (x k : Z) : x <= k -> 0 <= k -> fexp prec emax x <= k.
Proof. unfold fexp, emin, prec, emax. lia. Qed.

Lemma binary_round_aux_finite (s : bool) (m e : Z) :
  0 <= m < 2 ^ 116 -> e <= 0 ->
  match binary_round_aux prec emax s m e loc_Exact with
  | S754_infinity _ | S754_nan => False
  | _ => True
  end.
Proof.
  intros Hm He. unfold binary_round_aux.
  pose proof (shr_fexp_le m e loc_Exact (proj1 Hm)) as (H1 & H2).
  destruct (shr_fexp prec emax m e loc_Exact) as [mrs' e'].
  cbn [fst snd] in H1, H2.
  pose proof (round_nearest_even_le (shr_m mrs') (loc_of_shr_record mrs')
                (proj1 H1)) as H3.
  set (m2 := round_nearest_even (shr_m mrs') (loc_of_shr_record mrs')) in *.
  pose proof (shr_fexp_le m2 e' loc_Exact (proj1 H3)) as (H4 & H5).
  destruct (shr_fexp prec emax m2 e' loc_Exact) as [mrs'' e''].
  cbn [fst snd] in H4, H5.
  pose proof (Zdigits2_upper m 116 ltac:(lia) Hm) as D1.
  pose proof (Zdigits2_upper m2 117 ltac:(lia)) as D2.
  assert (Hp : 2 ^ 117 = 2 * 2 ^ 116) by reflexivity.
  specialize (D2 ltac:(lia)).
  assert (E1 : e' <= 63).
  { pose proof (fexp_le (Zdigits2 m + e) 116 ltac:(lia) ltac:(lia)).
    unfold fexp, emin, prec, emax in *. lia. }
  assert (E2 : e'' <= 200).
  { unfold fexp, emin, prec, emax in *. lia. }
  destruct (shr_m mrs'') as [|q|q]; [exact I| |lia].
  destruct (Z.leb_spec e'' (emax - prec)) as [_|E]; [exact I|].
  unfold emax, prec in E. lia.
Qed.

Lemma iter_xO (d p : positive) :
  Zpos (Pos.iter xO p d) = Zpos p * 2 ^ Zpos d.
Proof.
  revert p. induction d as [|d IH] using Pos.peano_ind; intros p.
  - cbn [Pos.iter]. rewrite Pos2Z.inj_xO. lia.
  - rewrite Pos.iter_succ, Pos2Z.inj_succ, Z.pow_succ_r by lia.
    rewrite Pos2Z.inj_xO, IH. lia.
Qed.

Lemma float_of_int_finite (n : Z) :
  - 2 ^ 64 < n < 2 ^ 64 ->
  match float_of_int n with
  | S754_infinity _ | S754_nan => False
  | _ => True
  end.
Proof.
  intros Hn. unfold float_of_int, dyadic, binary_normalize.
  assert (H : forall s p, Zpos p < 2 ^ 64 ->
            match binary_round prec emax s p 0 with
            | S754_infinity _ | S754_nan => False
            | _ => True
            end).
  { intros s p Hp. unfold binary_round, shl_align.
    pose proof (Zdigits2_upper (Zpos p) 64 ltac:(lia) ltac:(lia)) as D.
    cbn [Zdigits2] in D.
    destruct (fexp prec emax (Zpos (digits2_pos p) + 0) - 0) as [|q|q] eqn:E;
      try (apply binary_round_aux_finite; [|lia];
           assert (2 ^ 64 <= 2 ^ 116) by (apply Z.pow_le_mono_r; lia); lia).
    apply binary_round_aux_finite.
    - rewrite iter_xO. unfold fexp, emin, prec, emax in E.
      assert (Zpos q <= 52) by lia.
      assert (2 ^ Zpos q <= 2 ^ 52) by (apply Z.pow_le_mono_r; lia).
      assert (0 < 2 ^ Zpos q) by (apply Z.pow_pos_nonneg; lia).
      change (2 ^ 116) with (2 ^ 64 * 2 ^ 52). nia.
    - unfold fexp, emin, prec, emax in *. lia. }
  destruct n as [|p|p]; [exact I| |]; apply H; lia.
Qed.

Lemma float_of_int_checked_ok (n : Z) :
  - 2 ^ 64 < n < 2 ^ 64 -> float_of_int_checked n = Ok (float_of_int n).
Proof.
  intros Hn. pose proof (float_of_int_finite n Hn) as H.
  unfold float_of_int_checked.
  destruct (float_of_int n); [reflexivity | destruct H | destruct H | reflexivity].
Qed.

Lemma float_of_int_checked_error (n : Z) (e : exn) :
  float_of_int_checked n = Err e -> e = int_too_large.
Proof.
  unfold float_of_int_checked.
  destruct (float_of_int n); intros H; try discriminate.
  injection H as <-. reflexivity.
Qed.

(** Within the 64-bit range the product of line 281 is evaluated without
    an error, and [generate_frames] is its two loops. *)
Lemma generate_frames_loops (config : TimergenConfig) :
  - 2 ^ 64 < frame_rate config < 2 ^ 64 ->
  generate_frames config =
  fill_times (fun t => format_time t (time_format config))
    (duration config) (frame_rate config).
Proof.
  intros Hfps. unfold generate_frames, frames_product.
  rewrite (float_of_int_checked_ok _ Hfps). reflexivity.
Qed.

(** ** Inputs that are not validated *)





(** The integer limits that a frame rate can reach: the conversion to
    [float] fails from [2^1024 - 2^970] on, in both directions, before any
    frame is scheduled; the repetition of the step fails for a count below
    [-2^63], that is for a rate of [-2^63] or less. *)
Lemma frame_rate_limits :
  float_of_int_checked (2 ^ 1024 - 2 ^ 970 - 1) =
    Ok (S754_finite false (2 ^ 53 - 1) 971) /\
  float_of_int_checked (2 ^ 1024 - 2 ^ 970) = Err int_too_large /\
  float_of_int_checked (- (2 ^ 1024 - 2 ^ 970)) = Err int_too_large /\
  generate_frames {| duration := dyadic 2 0; frame_rate := - 10 ^ 400;
                     time_format := "%S" |} = Err int_too_large /\
  generate_frames {| duration := S754_zero false; frame_rate := 10 ^ 400;
                     time_format := "%S" |} = Err int_too_large /\
  generate_frames {| duration := dyadic 2 0; frame_rate := - 2 ^ 63;
                     time_format := "%S" |} = Err cannot_fit_index /\
  generate_frames {| duration := dyadic 2 0; frame_rate := - 2 ^ 63 + 1;
                     time_format := "%S" |} = Ok ["00"; "01"]%string /\
  millis_counts (- 10 ^ 30) = Err cannot_fit_index.
Proof. repeat split; vm_compute; reflexivity. Qed.

(** * Further properties of the code *)

(** ** Time units on every integer *)

(** X1.  The decomposition is a floor decomposition: on every integer, negative
    ones included, the recombination gives the time back and the minutes,
    seconds and milliseconds stay in their ranges; the hours carry the
    sign. *)
Theorem units_of_any_integer (t : Z) :
  let '(h, mi, s, ms) := get_units_from_milliseconds t in
  recombine (h, mi, s, ms) = t /\
  0 <= mi <= 59 /\ 0 <= s <= 59 /\ 0 <= ms <= 999 /\
  (h < 0 <-> t < 0).
Proof.
  rewrite get_units_eq. unfold recombine.
  Z.div_mod_to_equations. lia.
Qed.

(** X2.  The decomposition inverts the recombination of components that are in
    range. *)
Theorem units_of_recombine (h mi s ms : Z) :
  0 <= mi <= 59 -> 0 <= s <= 59 -> 0 <= ms <= 999 ->
  get_units_from_milliseconds (recombine (h, mi, s, ms)) = (h, mi, s, ms).
Proof.
  intros Hmi Hs Hms. rewrite get_units_eq. unfold recombine.
  repeat f_equal; Z.div_mod_to_equations; lia.
Qed.

Lemma units_of_recombine_witness :
  get_units_from_milliseconds (recombine (-1, 59, 59, 999)) = (-1, 59, 59, 999).
Proof.
  apply (units_of_recombine (-1) 59 59 999); lia.
Defined.

(** X3.  A whole number of seconds has no milliseconds, and its other units are
    those of the seconds. *)
Theorem units_from_seconds (sec : Z) :
  get_units_from_seconds sec = (sec / 60 / 60, (sec / 60) mod 60, sec mod 60, 0) /\
  recombine (get_units_from_seconds sec) = sec * 1000.
Proof.
  unfold get_units_from_seconds. rewrite get_units_eq. unfold recombine.
  rewrite Z.div_mul, Z.mod_mul by lia. split; [reflexivity|].
  Z.div_mod_to_equations. lia.
Qed.

(** ** Patterns that render *)

Lemma sub_pieces_app (repl : rmatch -> result chars) (ps qs : list piece) :
  sub_pieces repl (ps ++ qs) =
  (a <- sub_pieces repl ps ;; b <- sub_pieces repl qs ;; Ok (a ++ b)).
Proof.
  induction ps as [|p ps IH]; cbn [app].
  - unfold sub_pieces at 2. cbn. destruct (sub_pieces repl qs); reflexivity.
  - rewrite !sub_pieces_cons, IH.
    destruct (sub_piece repl p) as [a|e]; cbn; [|reflexivity].
    destruct (sub_pieces repl ps) as [b|e]; cbn; [|reflexivity].
    destruct (sub_pieces repl qs) as [c|e]; cbn; [|reflexivity].
    rewrite app_assoc. reflexivity.
Qed.

(** On valid pieces the substitution succeeds, and the format operator turns
    its text into the rendering of the pieces, whatever follows. *)
Lemma sub_pieces_valid (units : Z * Z * Z * Z) (ps : list piece) :
  forallb valid_piece ps = true ->
  exists text,
    sub_pieces (replacer units) ps = Ok text /\
    forall rest,
      py_format_from FText (text ++ rest) =
      fmap (app (flat_map (render_piece units) ps)) (py_format_from FText rest).
Proof.
  induction ps as [|p ps IH]; intros Hv.
  - exists []. split; [reflexivity|]. intros rest. cbn.
    destruct (py_format_from FText rest); reflexivity.
  - cbn [forallb] in Hv. apply andb_prop in Hv as [Hp Hps].
    destruct (IH Hps) as (text & Htext & Hfmt). clear IH.
    rewrite sub_pieces_cons, Htext.
    destruct p as [c|[|ds u]]; cbn [sub_piece replacer bind valid_piece] in *.
    + apply negb_true_iff, Ascii.eqb_neq in Hp.
      exists ([c] ++ text). split; [reflexivity|]. intros rest.
      cbn [app py_format_from flat_map render_piece].
      rewrite (eqb_percent_false c Hp), Hfmt.
      destruct (py_format_from FText rest); reflexivity.
    + exists (["%"; "%"] ++ text). split; [reflexivity|]. intros rest.
      cbn [app py_format_from flat_map render_piece Ascii.eqb Bool.eqb].
      rewrite Hfmt. destruct (py_format_from FText rest); reflexivity.
    + apply negb_true_iff in Hp. rewrite Hp. cbn [bind].
      eexists. split; [reflexivity|]. intros rest.
      rewrite <- app_assoc, py_format_app
        by (apply apply_slice_no_percent, padded_no_percent).
      rewrite Hfmt. cbn [flat_map render_piece].
      destruct (py_format_from FText rest); cbn; [|reflexivity].
      rewrite app_assoc. reflexivity.
Qed.

Lemma format_time_chars_valid (t : Z) (fmt : chars) :
  valid_pattern fmt = true ->
  format_time_chars t fmt =
  Ok (flat_map (render_piece (get_units_from_milliseconds t)) (rx_scan fmt)).
Proof.
  intros Hv. unfold format_time_chars, rx_sub.
  destruct (sub_pieces_valid (get_units_from_milliseconds t) _ Hv)
    as (text & -> & Hfmt).
  cbn [bind]. unfold py_format. rewrite <- (app_nil_r text), Hfmt.
  cbn. rewrite app_nil_r. reflexivity.
Qed.

Lemma forallb_false {A : Type} (f : A -> bool) (l : list A) :
  forallb f l = false -> exists x, In x l /\ f x = false.
Proof.
  induction l as [|x l IH]; cbn; [discriminate|].
  destruct (f x) eqn:E; cbn.
  - intros H. destruct (IH H) as (y & Hy & Hf). exists y. auto.
  - intros _. exists x. auto.
Qed.

Lemma format_time_chars_invalid (t : Z) (fmt : chars) :
  valid_pattern fmt = false ->
  exists e, format_time_chars t fmt = Err e /\ format_error e.
Proof.
  intros Hv. apply forallb_false in Hv as (p & Hin & Hp).
  unfold format_time_chars, rx_sub.
  destruct p as [c|[|ds u]]; cbn in Hp; try discriminate.
  - apply negb_false_iff, Ascii.eqb_eq in Hp. subst c.
    destruct (sub_pieces _ (rx_scan fmt)) as [text|e] eqn:Hsub; cbn [bind].
    + destruct (dangling_text_fails _ _ 0%nat text Hin Hsub) as (e & He & Hfe).
      exists e. split; [exact He | exact Hfe].
    + exists e. split; [reflexivity|].
      unfold sub_pieces, fmap in Hsub.
      destruct (mapM _ _) as [outs|e'] eqn:Hm; [discriminate|].
      injection Hsub as ->. apply mapM_error_from in Hm as (q & _ & Hq).
      left. exact (sub_piece_error _ _ _ Hq).
  - apply negb_false_iff, Z.eqb_eq in Hp.
    exists width_cannot_be_0. split; [|left; reflexivity].
    unfold sub_pieces.
    rewrite (mapM_single_error _ width_cannot_be_0 _ _
               (sub_piece_error _) Hin (replacer_zero _ ds u Hp)).
    reflexivity.
Qed.

(** X4.  Literal text, that is text without [%], is its own label at every
    elapsed time. *)
Theorem literal_text_unchanged (t : Z) (s : chars) :
  no_percent s -> format_time_chars t s = Ok s.
Proof.
  intros Hs. unfold format_time_chars, rx_sub, rx_scan.
  rewrite <- (app_nil_r s) at 1. rewrite (rx_scan_from_chars s [] Hs).
  rewrite sub_pieces_chars. cbn. rewrite app_nil_r.
  apply py_format_no_percent. exact Hs.
Qed.

Lemma literal_text_unchanged_witness :
  format_time_chars 1234 ["a"; ":"; "H"; "5"] = Ok ["a"; ":"; "H"; "5"].
Proof.
  apply literal_text_unchanged. repeat constructor; discriminate.
Defined.

(** X5.  [format_time] returns a label exactly for the patterns whose scan has
    neither a [%] outside the matches nor a directive of stored width 0;
    this does not depend on the elapsed time, and every other pattern raises
    one of the six format errors (width cannot be 0, incomplete format, not
    enough arguments, format requires a mapping, width too big, precision
    too big). *)
Theorem format_time_succeeds_iff_valid (t : Z) (fmt : string) :
  ((exists label, format_time t fmt = Ok label) <->
   valid_pattern (list_ascii_of_string fmt) = true) /\
  ((exists e, format_time t fmt = Err e /\ format_error e) <->
   valid_pattern (list_ascii_of_string fmt) = false).
Proof.
  unfold format_time.
  destruct (valid_pattern (list_ascii_of_string fmt)) eqn:Hv.
  - rewrite (format_time_chars_valid t _ Hv). cbn. split; split; intros H.
    + reflexivity.
    + eexists. reflexivity.
    + destruct H as (e & H & _). discriminate.
    + discriminate.
  - destruct (format_time_chars_invalid t _ Hv) as (e & -> & Hfe). cbn.
    split; split; intros H.
    + destruct H as (l & H). discriminate.
    + discriminate.
    + reflexivity.
    + exists e. auto.
Qed.

(** X6.  The label of a valid pattern is the concatenation, piece by piece, of
    the copied characters, one [%] for each escape, and for each directive
    the slice of the padded value of its unit: the regular expression
    substitution followed by the format operator computes what a single pass
    over the pieces would. *)
Theorem valid_pattern_label (t : Z) (fmt : string) :
  valid_pattern (list_ascii_of_string fmt) = true ->
  format_time t fmt =
  Ok (string_of_list_ascii
        (flat_map (render_piece (get_units_from_milliseconds t))
           (rx_scan (list_ascii_of_string fmt)))).
Proof.
  intros Hv. unfold format_time.
  rewrite (format_time_chars_valid t _ Hv). reflexivity.
Qed.

Lemma valid_pattern_label_witness :
  format_time 3725007 "%H:%M:%S.%m" = Ok "01:02:05.007"%string.
Proof.
  exact (valid_pattern_label 3725007 "%H:%M:%S.%m" eq_refl).
Defined.

(** ** Patterns in sequence *)

Lemma span_digits_split (r : chars) :
  forall ds rest, span_digits r = (ds, rest) -> r = ds ++ rest.
Proof.
  induction r as [|x r IH]; cbn; intros ds rest H.
  - injection H as <- <-. reflexivity.
  - destruct (is_digit x).
    + destruct (span_digits r) as [ds' rest'].
      injection H as <- <-. cbn. f_equal. apply IH. reflexivity.
    + injection H as <- <-. reflexivity.
Qed.

(** Digits stop at a character of the text: what follows the text is not
    looked at. *)
Lemma span_digits_app (r b : chars) :
  forall ds c rest,
    span_digits r = (ds, c :: rest) ->
    span_digits (r ++ b) = (ds, c :: rest ++ b).
Proof.
  induction r as [|x r IH]; cbn; intros ds c rest H; [discriminate|].
  destruct (is_digit x).
  - destruct (span_digits r) as [ds' rest'] eqn:E.
    injection H as <- ->. rewrite (IH ds' c rest eq_refl). reflexivity.
  - injection H as <- <- <-. reflexivity.
Qed.

Lemma group_digits_not_minus (x : ascii) (r : chars) :
  x <> "-" ->
  group_digits (x :: r) =
  match span_digits (x :: r) with
  | ([], _) => (None, x :: r)
  | (ds, rest) => (Some ds, rest)
  end.
Proof. intros H. unfold group_digits. ascii_cases x. Qed.

Lemma group_digits_minus (r : chars) :
  group_digits ("-" :: r) =
  match span_digits r with
  | ([], _) => (None, "-" :: r)
  | (ds, rest) => (Some ("-" :: ds), rest)
  end.
Proof. reflexivity. Qed.

Lemma group_digits_split (r : chars) :
  forall g rest,
    group_digits r = (g, rest) ->
    List.length r = (glen g + List.length rest)%nat.
Proof.
  intros g rest H. destruct r as [|x r]; [injection H as <- <-; reflexivity|].
  destruct (ascii_dec x "-") as [->|Hx].
  - rewrite group_digits_minus in H.
    destruct (span_digits r) as [[|d ds] rest'] eqn:E.
    + injection H as <- <-. reflexivity.
    + injection H as <- <-. apply span_digits_split in E. subst r.
      cbn. rewrite length_app. cbn. lia.
  - rewrite (group_digits_not_minus x r Hx) in H.
    destruct (span_digits (x :: r)) as [[|d ds] rest'] eqn:E.
    + injection H as <- <-. reflexivity.
    + injection H as <- <-. apply span_digits_split in E. rewrite E.
      cbn. rewrite length_app. cbn. lia.
Qed.

Lemma group_digits_app (r b : chars) :
  forall g c rest,
    group_digits r = (g, c :: rest) -> c <> "-" ->
    group_digits (r ++ b) = (g, c :: rest ++ b).
Proof.
  intros g c rest H Hc. destruct r as [|x r]; [discriminate|].
  destruct (ascii_dec x "-") as [->|Hx].
  - rewrite group_digits_minus in H. cbn [app]. rewrite group_digits_minus.
    destruct (span_digits r) as [[|d ds] rest'] eqn:E.
    + injection H as <- <- <-. contradiction.
    + injection H as <- ->. rewrite (span_digits_app r b _ _ _ E).
      reflexivity.
  - rewrite (group_digits_not_minus x r Hx) in H. cbn [app].
    rewrite (group_digits_not_minus x (r ++ b) Hx).
    destruct (span_digits (x :: r)) as [[|d ds] rest'] eqn:E.
    + injection H as <- <- <-.
      pose proof (span_digits_split _ _ _ E) as Hs. cbn in Hs. subst rest'.
      change (x :: r ++ b) with ((x :: r) ++ b).
      rewrite (span_digits_app (x :: r) b _ _ _ E). reflexivity.
    + injection H as <- ->.
      change (x :: r ++ b) with ((x :: r) ++ b).
      rewrite (span_digits_app (x :: r) b _ _ _ E). reflexivity.
Qed.

Lemma rx_match_percent (r : chars) :
  rx_match ("%" :: r) =
  let '(g, rest) := group_digits r in
  match rest with
  | c :: _ =>
      match unit_of_char c with
      | Some u => Some (MDirective g u, (2 + glen g)%nat)
      | None =>
          match r with
          | "%" :: _ => Some (MPercent, 2%nat)
          | _ => None
          end
      end
  | [] => None
  end.
Proof. reflexivity. Qed.

Lemma unit_of_char_not_minus (c : ascii) (u : unit_t) :
  unit_of_char c = Some u -> c <> "-".
Proof. intros H ->. discriminate. Qed.

(** A match lies within the text it is found in, and text added after it
    does not change it. *)
Lemma rx_match_app (s b : chars) (ma : rmatch) (n : nat) :
  rx_match s = Some (ma, n) ->
  rx_match (s ++ b) = Some (ma, n) /\ (n <= List.length s)%nat.
Proof.
  intros H. destruct s as [|x r]; [discriminate|].
  destruct (ascii_dec x "%") as [->|Hx];
    [|rewrite (rx_match_not_percent x r Hx) in H; discriminate].
  rewrite rx_match_percent in H. cbn [app]. rewrite rx_match_percent.
  destruct (group_digits r) as [g rest] eqn:Hg.
  destruct rest as [|c rest]; [discriminate|].
  destruct (unit_of_char c) as [u|] eqn:Hu.
  - injection H as <- <-.
    rewrite (group_digits_app r b g c rest Hg (unit_of_char_not_minus c u Hu)).
    rewrite Hu. split; [reflexivity|].
    apply group_digits_split in Hg. cbn in *. lia.
  - destruct r as [|y r']; [discriminate|].
    destruct (ascii_dec y "%") as [->|Hy].
    + injection H as <- <-. cbn [app].
      change (group_digits ("%" :: r' ++ b)) with (None (A:=chars), "%" :: r' ++ b).
      cbn. split; [reflexivity | lia].
    + exfalso. revert H. clear -Hy. ascii_cases y.
Qed.

Lemma rx_scan_from_app (a b : chars) :
  forall skip,
    (skip <= List.length a)%nat ->
    forallb valid_piece (rx_scan_from skip a) = true ->
    rx_scan_from skip (a ++ b) = rx_scan_from skip a ++ rx_scan_from 0 b.
Proof.
  induction a as [|x a IH]; intros skip Hskip Hv.
  - cbn in Hskip. replace skip with 0%nat by lia. reflexivity.
  - destruct skip as [|k]; cbn [app rx_scan_from] in *.
    + change (x :: a ++ b) with ((x :: a) ++ b).
      destruct (rx_match (x :: a)) as [[ma n]|] eqn:Hm.
      * destruct (rx_match_app _ b _ _ Hm) as [-> Hn].
        cbn [forallb] in Hv. apply andb_prop in Hv as [_ Hv].
        cbn [app]. rewrite IH by (cbn in Hn; try lia; exact Hv). reflexivity.
      * cbn [forallb valid_piece] in Hv. apply andb_prop in Hv as [Hx Hv].
        apply negb_true_iff, Ascii.eqb_neq in Hx.
        cbn [app]. rewrite (rx_match_not_percent x (a ++ b) Hx).
        rewrite IH by (try lia; exact Hv). reflexivity.
    + apply IH; [cbn in Hskip; lia | exact Hv].
Qed.

(** X7.  A valid pattern followed by any pattern renders as its own label
    followed by what the second pattern renders, errors of the second
    included. *)
Theorem valid_prefix_composes (t : Z) (a b : chars) :
  valid_pattern a = true ->
  format_time_chars t (a ++ b) =
  (la <- format_time_chars t a ;;
   lb <- format_time_chars t b ;;
   Ok (la ++ lb)).
Proof.
  intros Hv. rewrite (format_time_chars_valid t a Hv). cbn [bind].
  unfold format_time_chars, rx_sub, rx_scan.
  rewrite (rx_scan_from_app a b 0%nat ltac:(lia) Hv), sub_pieces_app.
  destruct (sub_pieces_valid (get_units_from_milliseconds t)
              (rx_scan_from 0 a) Hv) as (text & -> & Hfmt).
  cbn [bind].
  destruct (sub_pieces _ (rx_scan_from 0 b)) as [tb|e]; cbn [bind];
    [|reflexivity].
  unfold py_format. rewrite Hfmt.
  destruct (py_format_from FText tb); reflexivity.
Qed.

Lemma valid_prefix_composes_witness :
  format_time_chars 65000 (["%"; "M"; ":"] ++ ["%"; "S"]) =
  Ok ["0"; "1"; ":"; "0"; "5"].
Proof.
  exact (valid_prefix_composes 65000 ["%"; "M"; ":"] ["%"; "S"] eq_refl).
Defined.

(** ** The characters of a label *)

Lemma chars_eqb_true (a b : chars) : chars_eqb a b = true -> a = b.
Proof. unfold chars_eqb. destruct (list_eq_dec ascii_dec a b); congruence. Qed.

Lemma below_in_range (n v : Z) : 0 <= v < n -> In v (range n).
Proof.
  intros H. unfold range. apply in_map_iff.
  exists (Z.to_nat v). split; [lia|]. apply in_seq. lia.
Qed.

Lemma last2_below_100_check :
  forallb (fun v =>
             forallb (fun u => chars_eqb (apply_slice (-2) (padded v (-2) u))
                                 (two_digit_chars v))
               [UH; UM; US; Um])
    (range 100) = true.
Proof. vm_compute. reflexivity. Qed.

(** Keeping the last two characters of a value below 100 gives its two
    decimal digits. *)
Lemma last2_two_digits (v : Z) (u : unit_t) :
  0 <= v < 100 -> apply_slice (-2) (padded v (-2) u) = two_digit_chars v.
Proof.
  intros Hv.
  pose proof (proj1 (forallb_forall _ _) last2_below_100_check v
                (below_in_range 100 v Hv)) as H.
  apply chars_eqb_true.
  apply (proj1 (forallb_forall _ _) H u). destruct u; cbn; auto.
Qed.

Lemma first2_first3_below_1000_check :
  forallb (fun v =>
             chars_eqb (apply_slice 2 (padded v 2 Um)) (two_digit_chars (v / 10)) &&
             chars_eqb (apply_slice 3 (padded v 3 Um)) (three_digit_chars v))
    (range 1000) = true.
Proof. vm_compute. reflexivity. Qed.

Lemma first2_ms (v : Z) :
  0 <= v < 1000 -> apply_slice 2 (padded v 2 Um) = two_digit_chars (v / 10).
Proof.
  intros Hv.
  pose proof (proj1 (forallb_forall _ _) first2_first3_below_1000_check v
                (below_in_range 1000 v Hv)) as H.
  apply andb_prop in H as [H _]. apply chars_eqb_true. exact H.
Qed.

Lemma first3_ms (v : Z) :
  0 <= v < 1000 -> apply_slice 3 (padded v 3 Um) = three_digit_chars v.
Proof.
  intros Hv.
  pose proof (proj1 (forallb_forall _ _) first2_first3_below_1000_check v
                (below_in_range 1000 v Hv)) as H.
  apply andb_prop in H as [_ H]. apply chars_eqb_true. exact H.
Qed.

(** X9.  With the default pattern the label is [MM:SS.cc], minutes, seconds and
    hundredths of a second with two digits each, at every elapsed time; the
    hours are not shown, so the label is the same one hour later. *)
Theorem default_format_label (t : Z) :
  let '(h, mi, s, ms) := get_units_from_milliseconds t in
  format_time t default_time_format =
    Ok (string_of_list_ascii
          (two_digit_chars mi ++ ":" :: two_digit_chars s ++
           "." :: two_digit_chars (ms / 10))) /\
  format_time (t + 3600000) default_time_format =
    format_time t default_time_format.
Proof.
  assert (Hlabel : forall t',
            format_time t' default_time_format =
            Ok (string_of_list_ascii
                  (two_digit_chars ((t' / 1000 / 60) mod 60) ++
                   ":" :: two_digit_chars ((t' / 1000) mod 60) ++
                   "." :: two_digit_chars ((t' mod 1000) / 10)))).
  { intros t'. unfold format_time, default_time_format.
    rewrite format_time_chars_valid by reflexivity.
    change (rx_scan (list_ascii_of_string "%M:%S.%-2m"))
      with [PMatch (MDirective None UM); PChar ":";
            PMatch (MDirective None US); PChar ".";
            PMatch (MDirective (Some ["-"; "2"]) Um)].
    rewrite get_units_eq.
    cbn [flat_map render_piece unit_value app].
    change (stored_width None UM) with (-2).
    change (stored_width None US) with (-2).
    change (stored_width (Some ["-"; "2"]) Um) with 2.
    rewrite !last2_two_digits by (Z.div_mod_to_equations; lia).
    rewrite first2_ms by (Z.div_mod_to_equations; lia).
    rewrite app_nil_r. reflexivity. }
  rewrite get_units_eq. split; [apply Hlabel|].
  rewrite !Hlabel.
  replace (((t + 3600000) / 1000 / 60) mod 60) with ((t / 1000 / 60) mod 60)
    by (Z.div_mod_to_equations; lia).
  replace (((t + 3600000) / 1000) mod 60) with ((t / 1000) mod 60)
    by (Z.div_mod_to_equations; lia).
  replace ((t + 3600000) mod 1000) with (t mod 1000)
    by (Z.div_mod_to_equations; lia).
  reflexivity.
Qed.

Lemma string_of_uint_digits (d : Decimal.uint) :
  Forall (fun c => is_digit c = true)
    (list_ascii_of_string (NilEmpty.string_of_uint d)).
Proof. induction d; cbn; constructor; try reflexivity; assumption. Qed.

Lemma str_digits (v : Z) : 0 <= v -> Forall (fun c => is_digit c = true) (str v).
Proof.
  intros Hv. unfold str. destruct v as [|p|p]; [| |lia].
  - repeat constructor.
  - cbn. destruct (Pos.to_uint p); try apply string_of_uint_digits.
    repeat constructor.
Qed.

Lemma directive_digits (v w : Z) (u : unit_t) :
  0 <= v -> Forall (fun c => is_digit c = true) (apply_slice w (padded v w u)).
Proof.
  intros Hv. unfold apply_slice, slice_last, slice_first.
  assert (Hp : Forall (fun c => is_digit c = true) (padded v w u)).
  { unfold padded, rjust0. apply Forall_app. split.
    - apply Forall_forall. intros c Hc. apply repeat_spec in Hc. subst c.
      reflexivity.
    - apply str_digits. exact Hv. }
  destruct (w <? 0); [apply Forall_skipn | apply Forall_firstn]; exact Hp.
Qed.

(** A copied character is a character of the pattern, and a match starts at
    a [%] of the pattern. *)
Lemma piece_from_pattern (s : chars) :
  forall skip p,
    In p (rx_scan_from skip s) ->
    match p with
    | PChar c => In c s
    | PMatch _ => In "%" s
    end.
Proof.
  induction s as [|x r IH]; intros skip p Hin; [destruct Hin|].
  destruct skip as [|k]; cbn [rx_scan_from] in Hin.
  - destruct (rx_match (x :: r)) as [[ma n]|] eqn:Hm.
    + destruct Hin as [<-|Hin].
      * left. destruct (ascii_dec x "%") as [Hx|Hx]; [exact Hx|].
        rewrite (rx_match_not_percent x r Hx) in Hm. discriminate.
      * specialize (IH _ _ Hin). destruct p; right; exact IH.
    + destruct Hin as [<-|Hin]; [left; reflexivity|].
      specialize (IH _ _ Hin). destruct p; right; exact IH.
  - specialize (IH _ _ Hin). destruct p; right; exact IH.
Qed.

Lemma units_nonneg (t : Z) (u : unit_t) :
  0 <= t -> 0 <= unit_value (get_units_from_milliseconds t) u.
Proof.
  intros Ht. rewrite get_units_eq. destruct u; cbn [unit_value];
    Z.div_mod_to_equations; lia.
Qed.

(** X8.  At a non-negative elapsed time every character of a label is a decimal
    digit or a character of the pattern: directives render as digits only,
    without a sign. *)
Theorem label_characters (t : Z) (fmt label : chars) :
  0 <= t ->
  format_time_chars t fmt = Ok label ->
  Forall (fun c => is_digit c = true \/ In c fmt) label.
Proof.
  intros Ht Hok.
  destruct (valid_pattern fmt) eqn:Hv.
  - rewrite (format_time_chars_valid t fmt Hv) in Hok. injection Hok as <-.
    apply Forall_forall. intros c Hc. apply in_flat_map in Hc.
    destruct Hc as (p & Hp & Hc).
    pose proof (piece_from_pattern fmt 0%nat p Hp) as Hfrom.
    destruct p as [x|[|ds u]]; cbn [render_piece] in Hc.
    + destruct Hc as [<-|[]]. right. exact Hfrom.
    + destruct Hc as [<-|[]]. right. exact Hfrom.
    + left.
      exact (proj1 (Forall_forall _ _)
               (directive_digits _ _ u (units_nonneg t u Ht)) c Hc).
  - destruct (format_time_chars_invalid t fmt Hv) as (e & He & _).
    congruence.
Qed.

Lemma label_characters_witness :
  Forall (fun c => is_digit c = true \/ In c ["%"; "M"; "m"; "%"; "S"; "s"])
    ["0"; "1"; "m"; "0"; "5"; "s"].
Proof.
  apply (label_characters 65000 ["%"; "M"; "m"; "%"; "S"; "s"]).
  - lia.
  - reflexivity.
Defined.

(** ** Labels that identify the time *)

Lemma cons_inj {A : Type} (x y : A) (l m : list A) :
  x :: l = y :: m -> x = y /\ l = m.
Proof. intros H. injection H as -> ->. auto. Qed.

Lemma digit_char_inj (a b : Z) :
  0 <= a <= 9 -> 0 <= b <= 9 -> digit_char a = digit_char b -> a = b.
Proof.
  intros Ha Hb H. unfold digit_char in H.
  apply (f_equal nat_of_ascii) in H.
  rewrite !nat_ascii_embedding in H by lia. lia.
Qed.

Lemma two_digit_chars_inj (a b : Z) :
  0 <= a < 100 -> 0 <= b < 100 -> two_digit_chars a = two_digit_chars b -> a = b.
Proof.
  intros Ha Hb H. unfold two_digit_chars in H. injection H as H1 H2.
  apply digit_char_inj in H1; [|Z.div_mod_to_equations; lia ..].
  apply digit_char_inj in H2; [|Z.div_mod_to_equations; lia ..].
  Z.div_mod_to_equations. lia.
Qed.

Lemma three_digit_chars_inj (a b : Z) :
  0 <= a < 1000 -> 0 <= b < 1000 ->
  three_digit_chars a = three_digit_chars b -> a = b.
Proof.
  intros Ha Hb H. unfold three_digit_chars in H. injection H as H1 H2 H3.
  apply digit_char_inj in H1; [|Z.div_mod_to_equations; lia ..].
  apply digit_char_inj in H2; [|Z.div_mod_to_equations; lia ..].
  apply digit_char_inj in H3; [|Z.div_mod_to_equations; lia ..].
  Z.div_mod_to_equations. lia.
Qed.

Lemma full_format_chars (t : Z) :
  0 <= t < 360000000 ->
  format_time_chars t (list_ascii_of_string "%H:%M:%S.%m") =
  Ok (two_digit_chars (t / 1000 / 60 / 60) ++
      ":" :: two_digit_chars ((t / 1000 / 60) mod 60) ++
      ":" :: two_digit_chars ((t / 1000) mod 60) ++
      "." :: three_digit_chars (t mod 1000)).
Proof.
  intros Ht. rewrite format_time_chars_valid by reflexivity.
  change (rx_scan (list_ascii_of_string "%H:%M:%S.%m"))
    with [PMatch (MDirective None UH); PChar ":";
          PMatch (MDirective None UM); PChar ":";
          PMatch (MDirective None US); PChar ".";
          PMatch (MDirective None Um)].
  rewrite get_units_eq.
  cbn [flat_map render_piece unit_value app].
  change (stored_width None UH) with (-2).
  change (stored_width None UM) with (-2).
  change (stored_width None US) with (-2).
  change (stored_width None Um) with 3.
  rewrite !last2_two_digits by (Z.div_mod_to_equations; lia).
  rewrite first3_ms by (Z.div_mod_to_equations; lia).
  rewrite app_nil_r. reflexivity.
Qed.

(** X10.  Below 100 hours the pattern [%H:%M:%S.%m] gives different labels to
    different elapsed times. *)
Theorem full_format_injective (t1 t2 : Z) :
  0 <= t1 < 360000000 -> 0 <= t2 < 360000000 ->
  format_time t1 "%H:%M:%S.%m" = format_time t2 "%H:%M:%S.%m" ->
  t1 = t2.
Proof.
  intros H1 H2 Heq. unfold format_time in Heq.
  rewrite (full_format_chars t1 H1), (full_format_chars t2 H2) in Heq.
  apply (f_equal (fun r => match r with
                           | Ok label => list_ascii_of_string label
                           | Err _ => []
                           end)) in Heq.
  cbn [fmap bind] in Heq.
  rewrite !list_ascii_of_string_of_list_ascii in Heq.
  unfold two_digit_chars, three_digit_chars in Heq. cbn [app] in Heq.
  repeat (let D := fresh "D" in
          apply cons_inj in Heq; destruct Heq as [D Heq]).
  repeat match goal with
         | H : digit_char _ = digit_char _ |- _ =>
             apply digit_char_inj in H; [|Z.div_mod_to_equations; lia ..]
         end.
  Z.div_mod_to_equations. lia.
Qed.

Lemma full_format_injective_witness : 3725000 + 7 = 3725007.
Proof.
  apply (full_format_injective (3725000 + 7) 3725007); [lia | lia | reflexivity].
Defined.

(** ** Offsets and frame counts *)

(** X16.  The offsets of a positive frame rate: one for each frame, each a
    multiple of the step [1000 // fps], and all within the second. *)
Theorem offsets_within_second (fps : Z) (offs : list Z) :
  0 < fps ->
  millis_counts fps = Ok offs ->
  Z.of_nat (List.length offs) = fps /\
  Forall (fun o => 0 <= o < 1000 /\
                   exists j, 0 <= j < fps /\ o = j * (1000 / fps)) offs.
Proof.
  intros Hfps H. rewrite (millis_counts_positive fps Hfps) in H.
  injection H as <-. split.
  - unfold range. rewrite !length_map, length_seq. lia.
  - apply Forall_forall. intros o Ho. apply in_map_iff in Ho.
    destruct Ho as (j & <- & Hj). unfold range in Hj.
    apply in_map_iff in Hj. destruct Hj as (k & <- & Hk). apply in_seq in Hk.
    assert (Hstep : 0 <= 1000 / fps) by (apply Z.div_pos; lia).
    assert (Hmul : fps * (1000 / fps) <= 1000)
      by (apply Z.mul_div_le; lia).
    split; [|exists (Z.of_nat k); split; [lia | reflexivity]].
    split; [nia|].
    destruct (Z.eq_dec (1000 / fps) 0) as [E|E]; [rewrite E; lia | nia].
Qed.

Lemma offsets_within_second_witness :
  Z.of_nat (List.length [0; 333; 666]) = 3 /\
  Forall (fun o => 0 <= o < 1000 /\
                   exists j, 0 <= j < 3 /\ o = j * (1000 / 3)) [0; 333; 666].
Proof.
  apply (offsets_within_second 3 [0; 333; 666]); [lia | reflexivity].
Defined.

(** X17.  Above 1000 frames per second the step is 0: all the frames of a second
    get the offset 0. *)
Theorem offsets_above_1000 (fps : Z) :
  1000 < fps ->
  millis_counts fps = Ok (repeat 0 (Z.to_nat fps)).
Proof.
  intros Hfps. rewrite millis_counts_positive by lia.
  rewrite Z.div_small by lia. f_equal. unfold range.
  generalize 0%nat as a. induction (Z.to_nat fps) as [|k IH]; intros a;
    [reflexivity|].
  cbn [seq map repeat]. f_equal; [lia | apply IH].
Qed.

Lemma offsets_above_1000_witness :
  millis_counts 1001 = Ok (repeat 0 1001).
Proof.
  exact (offsets_above_1000 1001 eq_refl).
Defined.


Lemma whole_blocks_length (fps : Z) (f : Z -> Z -> Z) (l : list Z) :
  0 <= fps ->
  Z.of_nat (List.length (flat_map (fun i => map (f i) (range fps)) l)) =
  Z.of_nat (List.length l) * fps.
Proof.
  intros Hfps. induction l as [|i l IH]; [reflexivity|].
  cbn [flat_map List.length]. rewrite length_app, length_map.
  unfold range at 1. rewrite length_map, length_seq. lia.
Qed.

Lemma range_length (n : Z) : 0 <= n -> Z.of_nat (List.length (range n)) = n.
Proof. intros H. unfold range. rewrite length_map, length_seq. lia. Qed.

Lemma float_floor_nonneg (d : float) :
  float_nonneg d = true -> 0 <= float_floor d.
Proof.
  destruct d as [s|s| |s m e]; cbn; try discriminate; try lia.
  destruct s; [discriminate|]. intros _. cbn [cond_Zopp].
  destruct (Z.leb_spec 0 e).
  - apply Z.mul_nonneg_nonneg; [lia | apply Z.pow_nonneg; lia].
  - apply Z.div_pos; [lia|]. apply Z.pow_pos_nonneg; lia.
Qed.

(** The frames of the partial second are at most as many as the offsets. *)
Lemma partial_second_length {A : Type} (label : Z -> result A) (d : float)
  (fps : Z) (offs : list Z) (tl : list A) :
  millis_counts fps = Ok offs ->
  partial_second label d fps = Ok tl ->
  (List.length tl <= List.length offs)%nat.
Proof.
  intros Hoffs H. unfold partial_second in H. rewrite Hoffs in H.
  cbn [bind] in H. apply fmap_ok in H as (outs & Houts & ->).
  clear Hoffs. revert outs Houts. induction offs as [|i offs IH]; intros outs Houts.
  - cbn in Houts. injection Houts as <-. cbn. lia.
  - cbn [mapM] in Houts.
    apply bind_ok in Houts as (y & Hy & Houts).
    apply bind_ok in Houts as (ys & Hys & [= <-]).
    specialize (IH ys Hys). cbn [List.concat List.length].
    rewrite length_app.
    assert (Hy1 : (List.length y <= 1)%nat).
    { destruct (int_lt_float i (frac_millis d)).
      - apply bind_ok in Hy as (sec & _ & Hy).
        apply bind_ok in Hy as (x & _ & [= <-]). cbn. lia.
      - injection Hy as <-. cbn. lia. }
    lia.
Qed.

(** X19.  For a finite duration [d >= 0] and a positive frame rate, a schedule
    has at least [floor(d) * fps] and at most [(floor(d) + 1) * fps]
    frames. *)
Theorem frame_count_bounds (d : float) (fps : Z) (ts : list Z) :
  float_nonneg d = true -> 0 < fps ->
  frame_times d fps = Ok ts ->
  float_floor d * fps <= Z.of_nat (List.length ts) <= (float_floor d + 1) * fps.
Proof.
  intros Hd Hfps H. unfold frame_times, fill_times in H.
  apply bind_ok in H as (w & Hw & H).
  apply bind_ok in H as (tl & Htl & [= <-]).
  rewrite (whole_seconds_times d fps _ _ (py_int_nonneg d Hd)
             (millis_counts_positive fps Hfps)) in Hw.
  injection Hw as <-.
  pose proof (partial_second_length _ d fps _ tl
                (millis_counts_positive fps Hfps) Htl) as Hlen.
  rewrite length_map in Hlen.
  pose proof (range_length fps ltac:(lia)) as Hr.
  rewrite length_app, Nat2Z.inj_add.
  pose proof (float_floor_nonneg d Hd) as Hfl.
  assert (Hwl : Z.of_nat (List.length
                  (flat_map (fun i => map (fun j => i * 1000 + j)
                               (map (fun j => j * (1000 / fps)) (range fps)))
                     (range (float_floor d)))) = float_floor d * fps).
  { rewrite <- (range_length (float_floor d) Hfl) at 2.
    rewrite <- (whole_blocks_length fps
                  (fun i j => i * 1000 + j * (1000 / fps))) by lia.
    f_equal. f_equal. apply flat_map_ext. intros i. rewrite map_map.
    reflexivity. }
  lia.
Qed.

Lemma frame_count_bounds_witness :
  2 * 4 <= Z.of_nat (List.length
             [0; 250; 500; 750; 1000; 1250; 1500; 1750; 3000; 3250])
        <= (2 + 1) * 4.
Proof.
  exact (frame_count_bounds (dyadic 5 (-1)) 4 _ eq_refl eq_refl eq_refl).
Defined.

(** ** Durations that are whole numbers of seconds *)

Lemma frac_millis_integral (d : float) :
  float_integral d = true -> frac_millis d = S754_zero false.
Proof.
  destruct d as [s|s| |s m e]; cbn [float_integral]; try discriminate.
  - intros _. reflexivity.
  - intros H. unfold frac_millis, float_mod_one, fmod_one.
    destruct (0 <=? e); cbn [orb] in H; [reflexivity|].
    apply Z.eqb_eq in H. rewrite H.
    destruct s; reflexivity.
Qed.

Lemma partial_second_integral {A : Type} (label : Z -> result A) (d : float)
  (fps : Z) (offs : list Z) :
  float_integral d = true ->
  millis_counts fps = Ok offs -> Forall (fun o => 0 <= o) offs ->
  partial_second label d fps = Ok [].
Proof.
  intros Hd Hoffs Hpos. unfold partial_second.
  rewrite Hoffs, (frac_millis_integral d Hd). cbn [bind int_lt_float].
  rewrite (mapM_total _ (fun _ => [])).
  - cbn. f_equal. clear. induction offs as [|o offs IH]; [reflexivity|].
    cbn. exact IH.
  - intros i Hi. pose proof (proj1 (Forall_forall _ _) Hpos i Hi) as Hi0.
    cbn beta in Hi0. destruct (Z.ltb_spec i 0); [lia | reflexivity].
Qed.

Lemma millis_counts_nonneg (fps : Z) (offs : list Z) :
  millis_counts fps = Ok offs -> Forall (fun o => 0 <= o) offs.
Proof.
  intros H. destruct (Z.lt_trichotomy fps 0) as [Hn|[->|Hp]].
  - destruct (Z.le_gt_cases fps (- 2 ^ 63)) as [Hlow|Hlow].
    + rewrite (millis_counts_too_negative fps Hlow) in H. discriminate.
    + rewrite (millis_counts_negative fps ltac:(lia)) in H. injection H as <-.
      repeat constructor. lia.
  - discriminate.
  - rewrite (millis_counts_positive fps Hp) in H. injection H as <-.
    apply Forall_forall. intros o Ho. apply in_map_iff in Ho.
    destruct Ho as (j & <- & Hj). unfold range in Hj.
    apply in_map_iff in Hj. destruct Hj as (k & <- & _).
    assert (0 <= 1000 / fps) by (apply Z.div_pos; lia). nia.
Qed.

(** X20.  When the duration is a whole number [n >= 0] of seconds the second loop
    adds nothing: the schedule has exactly [n * fps] frames, those of the
    seconds [0 .. n-1]. *)
Theorem whole_duration_schedule (d : float) (fps : Z) :
  float_nonneg d = true -> float_integral d = true -> 0 < fps ->
  frame_times d fps =
    Ok (flat_map (fun i => map (fun j => i * 1000 + j * (1000 / fps)) (range fps))
          (range (float_floor d))) /\
  (forall ts, frame_times d fps = Ok ts ->
              Z.of_nat (List.length ts) = float_floor d * fps).
Proof.
  intros Hd Hint Hfps.
  assert (H : frame_times d fps =
              Ok (flat_map (fun i => map (fun j => i * 1000 + j * (1000 / fps))
                                       (range fps))
                    (range (float_floor d)))).
  { unfold frame_times, fill_times.
    rewrite (whole_seconds_times d fps _ _ (py_int_nonneg d Hd)
               (millis_counts_positive fps Hfps)).
    rewrite (partial_second_integral _ d fps _ Hint
               (millis_counts_positive fps Hfps)
               (millis_counts_nonneg fps _ (millis_counts_positive fps Hfps))).
    cbn [bind]. rewrite app_nil_r. f_equal. apply flat_map_ext. intros i.
    rewrite map_map. reflexivity. }
  split; [exact H|]. intros ts Hts. rewrite H in Hts. injection Hts as <-.
  rewrite (whole_blocks_length fps (fun i j => i * 1000 + j * (1000 / fps)))
    by lia.
  rewrite range_length by (apply float_floor_nonneg; exact Hd). reflexivity.
Qed.

Lemma whole_duration_schedule_witness :
  frame_times (dyadic 2 0) 3 = Ok [0; 333; 666; 1000; 1333; 1666].
Proof.
  exact (proj1 (whole_duration_schedule (dyadic 2 0) 3 eq_refl eq_refl eq_refl)).
Defined.

(** ** Order of the whole seconds *)

Lemma StronglySorted_app (l1 l2 : list Z) :
  StronglySorted Z.le l1 -> StronglySorted Z.le l2 ->
  (forall x y, In x l1 -> In y l2 -> x <= y) ->
  StronglySorted Z.le (l1 ++ l2).
Proof.
  intros H1 H2 Hc. induction H1 as [|x l1 Hs IH Hx]; [exact H2|].
  cbn [app]. constructor.
  - apply IH. intros a b Ha Hb. apply Hc; [right; exact Ha | exact Hb].
  - apply Forall_app. split; [exact Hx|].
    apply Forall_forall. intros y Hy. apply Hc; [left; reflexivity | exact Hy].
Qed.

Lemma block_sorted (i step : Z) (a k : nat) :
  0 <= step ->
  StronglySorted Z.le
    (map (fun j => i * 1000 + j * step) (map Z.of_nat (seq a k))).
Proof.
  intros Hstep. revert a. induction k as [|k IH]; intros a;
    cbn [seq map]; constructor.
  - apply IH.
  - apply Forall_forall. intros x Hx. rewrite map_map in Hx.
    apply in_map_iff in Hx. destruct Hx as (j & <- & Hj).
    apply in_seq in Hj. nia.
Qed.

Lemma block_bounds (fps i x : Z) :
  0 < fps ->
  In x (map (fun j => i * 1000 + j * (1000 / fps)) (range fps)) ->
  i * 1000 <= x < (i + 1) * 1000.
Proof.
  intros Hfps Hx. apply in_map_iff in Hx. destruct Hx as (j & <- & Hj).
  unfold range in Hj. apply in_map_iff in Hj. destruct Hj as (k & <- & Hk).
  apply in_seq in Hk.
  assert (Hstep : 0 <= 1000 / fps) by (apply Z.div_pos; lia).
  assert (Hmul : fps * (1000 / fps) <= 1000) by (apply Z.mul_div_le; lia).
  split; [nia|].
  destruct (Z.eq_dec (1000 / fps) 0) as [E|E]; [rewrite E; lia | nia].
Qed.

Lemma blocks_sorted (fps : Z) (k : nat) :
  0 < fps ->
  forall a,
    StronglySorted Z.le
      (flat_map (fun i => map (fun j => i * 1000 + j * (1000 / fps)) (range fps))
         (map Z.of_nat (seq a k))) /\
    Forall (fun x => Z.of_nat a * 1000 <= x < Z.of_nat (a + k) * 1000)
      (flat_map (fun i => map (fun j => i * 1000 + j * (1000 / fps)) (range fps))
         (map Z.of_nat (seq a k))).
Proof.
  intros Hfps. induction k as [|k IH]; intros a.
  - split; constructor.
  - cbn [seq map flat_map]. destruct (IH (S a)) as [Hs Hb]. split.
    + apply StronglySorted_app.
      * apply block_sorted. apply Z.div_pos; lia.
      * exact Hs.
      * intros x y Hx Hy. apply (block_bounds fps _ _ Hfps) in Hx.
        pose proof (proj1 (Forall_forall _ _) Hb y Hy) as Hy0.
        cbn beta in Hy0. lia.
    + apply Forall_app. split.
      * apply Forall_forall. intros x Hx.
        apply (block_bounds fps _ _ Hfps) in Hx. lia.
      * apply Forall_forall. intros y Hy.
        pose proof (proj1 (Forall_forall _ _) Hb y Hy) as Hy0.
        cbn beta in Hy0. lia.
Qed.

(** X21.  For a finite duration [d >= 0] and a positive frame rate, the elapsed
    times of the whole seconds never decrease from one frame to the next,
    and all lie in [[0, floor(d) * 1000)]. *)
Theorem whole_seconds_sorted (d : float) (fps : Z) (w : list Z) :
  float_nonneg d = true -> 0 < fps ->
  whole_seconds (fun t => Ok t) d fps = Ok w ->
  StronglySorted Z.le w /\
  Forall (fun x => 0 <= x < float_floor d * 1000) w.
Proof.
  intros Hd Hfps H.
  rewrite (whole_seconds_times d fps _ _ (py_int_nonneg d Hd)
             (millis_counts_positive fps Hfps)) in H.
  injection H as <-.
  assert (E : flat_map (fun i => map (fun j => i * 1000 + j)
                                  (map (fun j => j * (1000 / fps)) (range fps)))
                (range (float_floor d)) =
              flat_map (fun i => map (fun j => i * 1000 + j * (1000 / fps))
                                  (range fps))
                (map Z.of_nat (seq 0 (Z.to_nat (float_floor d))))).
  { apply flat_map_ext. intros i. rewrite map_map. reflexivity. }
  rewrite E.
  destruct (blocks_sorted fps (Z.to_nat (float_floor d)) Hfps 0%nat) as [Hs Hb].
  split; [exact Hs|].
  pose proof (float_floor_nonneg d Hd) as Hfl.
  apply Forall_forall. intros x Hx.
  pose proof (proj1 (Forall_forall _ _) Hb x Hx) as Hx0.
  cbn beta in Hx0. lia.
Qed.

Lemma whole_seconds_sorted_witness :
  StronglySorted Z.le [0; 333; 666; 1000; 1333; 1666] /\
  Forall (fun x => 0 <= x < float_floor (dyadic 5 (-1)) * 1000)
    [0; 333; 666; 1000; 1333; 1666].
Proof.
  exact (whole_seconds_sorted (dyadic 5 (-1)) 3 _ eq_refl eq_refl eq_refl).
Defined.

(** ** The labels of a schedule *)

Lemma mapM_length {A B : Type} (f : A -> result B) (l : list A) (r : list B) :
  mapM f l = Ok r -> List.length r = List.length l.
Proof.
  revert r. induction l as [|x l IH]; intros r H.
  - injection H as <-. reflexivity.
  - cbn [mapM] in H. apply bind_ok in H as (y & _ & H).
    apply bind_ok in H as (ys & Hys & [= <-]). cbn. f_equal. apply IH. exact Hys.
Qed.

Lemma format_time_valid (t : Z) (fmt : string) :
  valid_pattern (list_ascii_of_string fmt) = true ->
  format_time t fmt =
  Ok (string_of_list_ascii
        (flat_map (render_piece (get_units_from_milliseconds t))
           (rx_scan (list_ascii_of_string fmt)))).
Proof.
  intros Hv. unfold format_time.
  rewrite (format_time_chars_valid t _ Hv). reflexivity.
Qed.

Lemma format_time_invalid (t : Z) (fmt : string) :
  valid_pattern (list_ascii_of_string fmt) = false ->
  exists e, format_time t fmt = Err e.
Proof.
  intros Hv. unfold format_time.
  destruct (format_time_chars_invalid t _ Hv) as (e & -> & _).
  exists e. reflexivity.
Qed.

(** X23.  The list [times] holds the label of each scheduled elapsed time, in
    frame order, once the product [frames] of line 281 is evaluated; it is
    built exactly when that product is and the schedule is empty or the
    pattern is valid, and then has one label for each frame.  With a frame
    rate between [-2^64] and [2^64] the product is always evaluated. *)
Theorem generate_frames_labels (config : TimergenConfig) (ts : list Z) :
  frame_times (duration config) (frame_rate config) = Ok ts ->
  generate_frames config =
    (frames <- frames_product (duration config) (frame_rate config) ;;
     mapM (fun t => format_time t (time_format config)) ts) /\
  ((exists labels, generate_frames config = Ok labels) <->
   ((exists frames,
       frames_product (duration config) (frame_rate config) = Ok frames) /\
    (ts = [] \/
     valid_pattern (list_ascii_of_string (time_format config)) = true))) /\
  (forall labels, generate_frames config = Ok labels ->
                  List.length labels = List.length ts) /\
  (- 2 ^ 64 < frame_rate config < 2 ^ 64 ->
   generate_frames config =
     mapM (fun t => format_time t (time_format config)) ts).
Proof.
  intros Hts.
  assert (Hgen : generate_frames config =
                 (frames <- frames_product (duration config)
                              (frame_rate config) ;;
                  mapM (fun t => format_time t (time_format config)) ts)).
  { unfold generate_frames.
    rewrite (fill_times_labels _ _ _ ts Hts). reflexivity. }
  split; [exact Hgen|]. split; [|split].
  - rewrite Hgen. split.
    + intros (labels & Hl).
      destruct (frames_product _ _) as [frames|e]; [|discriminate].
      cbn [bind] in Hl. split; [exists frames; reflexivity|].
      destruct ts as [|t0 ts']; [left; reflexivity|].
      right.
      destruct (valid_pattern (list_ascii_of_string (time_format config)))
        eqn:Hv; [reflexivity|].
      destruct (format_time_invalid t0 _ Hv) as (e & He).
      cbn [mapM] in Hl. rewrite He in Hl. discriminate.
    + intros ((frames & ->) & Hok). cbn [bind].
      destruct Hok as [->|Hv]; [exists []; reflexivity|].
      eexists. apply mapM_total. intros t _.
      apply (format_time_valid t _ Hv).
  - intros labels. rewrite Hgen.
    destruct (frames_product _ _) as [frames|e]; [|discriminate].
    cbn [bind]. apply mapM_length.
  - intros Hfps. rewrite (generate_frames_loops config Hfps).
    apply fill_times_labels. exact Hts.
Qed.

Lemma generate_frames_labels_witness :
  generate_frames {| duration := dyadic 1 0; frame_rate := 2;
                     time_format := "%S.%m" |} =
  mapM (fun t => format_time t "%S.%m") [0; 500].
Proof.
  apply (generate_frames_labels
           {| duration := dyadic 1 0; frame_rate := 2;
              time_format := "%S.%m" |} [0; 500] eq_refl).
  cbn. lia.
Defined.

(** X24.  A duration of zero gives no frame at any frame rate other than 0
    between [-2^63] and [2^63], and the pattern is then never looked at:
    even an invalid one is accepted. *)
Theorem zero_duration_no_frames (s : bool) (fps : Z) (fmt : string) :
  fps <> 0 -> - 2 ^ 63 < fps < 2 ^ 63 ->
  generate_frames {| duration := S754_zero s; frame_rate := fps;
                     time_format := fmt |} = Ok [].
Proof.
  intros Hfps Hb. rewrite generate_frames_loops by (cbn; lia).
  cbn [duration frame_rate time_format].
  apply (fill_times_labels _ (S754_zero s) fps []).
  unfold frame_times, fill_times.
  destruct (millis_counts fps) as [offs|e] eqn:Hoffs.
  - rewrite (whole_seconds_times (S754_zero s) fps 0 offs eq_refl Hoffs).
    rewrite (partial_second_integral _ (S754_zero s) fps offs eq_refl Hoffs
               (millis_counts_nonneg fps offs Hoffs)).
    reflexivity.
  - exfalso. destruct (Z.lt_trichotomy fps 0) as [Hn|[->|Hp]].
    + rewrite millis_counts_negative in Hoffs by lia. discriminate.
    + contradiction.
    + rewrite millis_counts_positive in Hoffs by lia. discriminate.
Qed.

Lemma zero_duration_no_frames_witness :
  generate_frames {| duration := S754_zero false; frame_rate := 25;
                     time_format := "%0H%" |} = Ok [].
Proof.
  apply zero_duration_no_frames; lia.
Defined.

(** ** Diagnostic messages *)

(** X25.  The four message functions share one level: whatever its place in the
    list, a function prints its message exactly when the verbosity is at
    least 3, the last value of the variable of the comprehension. *)
Theorem message_funcs_share_level (verbosity : Z) :
  List.length (create_message_funcs verbosity) = 4%nat /\
  forall f msg, In f (create_message_funcs verbosity) ->
                f msg = if 3 <=? verbosity then [msg] else [].
Proof.
  split; [reflexivity|].
  intros f msg Hin. cbn in Hin.
  repeat (destruct Hin as [<-|Hin]; [reflexivity|]). destruct Hin.
Qed.

(** ** Decimal digits of a value *)

Lemma uint_chars_revapp (l : Decimal.uint) :
  forall d, uint_chars (Decimal.revapp l d) =
            uint_chars (Decimal.revapp l Decimal.Nil) ++ uint_chars d.
Proof.
  induction l; intros d'; cbn [Decimal.revapp];
    try (rewrite IHl; symmetry; rewrite IHl; rewrite <- app_assoc; reflexivity).
  cbn. reflexivity.
Qed.

Lemma str_pos (p : positive) :
  str (Zpos p) = uint_chars (Decimal.rev (DecimalPos.Unsigned.to_lu (Npos p))).
Proof.
  unfold str, uint_chars. cbn [Z.to_int NilZero.string_of_int DecimalPos.Unsigned.to_lu].
  change (Decimal.rev (Pos.to_little_uint p)) with (Pos.to_uint p).
  pose proof (DecimalPos.Unsigned.to_uint_nonnil p) as Hn.
  unfold NilZero.string_of_uint. destruct (Pos.to_uint p); congruence.
Qed.

Lemma to_lu_step (q : positive) (k : N) :
  (k < 10)%N ->
  uint_chars (Decimal.rev (DecimalPos.Unsigned.to_lu (10 * Npos q + k))) =
  uint_chars (Decimal.rev (DecimalPos.Unsigned.to_lu (Npos q))) ++
  [digit_char (Z.of_N k)].
Proof.
  intros Hk.
  assert (Hd : exists f : Decimal.uint -> Decimal.uint,
             DecimalPos.Unsigned.to_lu (10 * Npos q + k) = f (DecimalPos.Unsigned.to_lu (Npos q)) /\
             (forall l, Decimal.rev (f l) = Decimal.revapp l (f Decimal.Nil)) /\
             uint_chars (f Decimal.Nil) = [digit_char (Z.of_N k)]).
  { pose proof (DecimalPos.Unsigned.to_ldec_tenfold q) as H0.
    assert (Hcases : (k = 0 \/ k = 1 \/ k = 2 \/ k = 3 \/ k = 4 \/
                      k = 5 \/ k = 6 \/ k = 7 \/ k = 8 \/ k = 9)%N) by lia.
    repeat destruct Hcases as [->|Hcases]; try subst k.
    - exists Decimal.D0. rewrite N.add_0_r. auto.
    - exists Decimal.D1.
      replace (10 * N.pos q + 1)%N with (N.succ (10 * N.pos q)) by lia.
      rewrite !DecimalPos.Unsigned.to_lu_succ, H0. auto.
    - exists Decimal.D2.
      replace (10 * N.pos q + 2)%N
        with (N.succ (N.succ (10 * N.pos q))) by lia.
      rewrite !DecimalPos.Unsigned.to_lu_succ, H0. auto.
    - exists Decimal.D3.
      replace (10 * N.pos q + 3)%N
        with (N.succ (N.succ (N.succ (10 * N.pos q)))) by lia.
      rewrite !DecimalPos.Unsigned.to_lu_succ, H0. auto.
    - exists Decimal.D4.
      replace (10 * N.pos q + 4)%N
        with (N.succ (N.succ (N.succ (N.succ (10 * N.pos q))))) by lia.
      rewrite !DecimalPos.Unsigned.to_lu_succ, H0. auto.
    - exists Decimal.D5.
      replace (10 * N.pos q + 5)%N
        with (N.succ (N.succ (N.succ (N.succ (N.succ (10 * N.pos q))))))
        by lia.
      rewrite !DecimalPos.Unsigned.to_lu_succ, H0. auto.
    - exists Decimal.D6.
      replace (10 * N.pos q + 6)%N
        with (N.succ (N.succ (N.succ (N.succ (N.succ (N.succ
                (10 * N.pos q))))))) by lia.
      rewrite !DecimalPos.Unsigned.to_lu_succ, H0. auto.
    - exists Decimal.D7.
      replace (10 * N.pos q + 7)%N
        with (N.succ (N.succ (N.succ (N.succ (N.succ (N.succ (N.succ
                (10 * N.pos q)))))))) by lia.
      rewrite !DecimalPos.Unsigned.to_lu_succ, H0. auto.
    - exists Decimal.D8.
      replace (10 * N.pos q + 8)%N
        with (N.succ (N.succ (N.succ (N.succ (N.succ (N.succ (N.succ (N.succ
                (10 * N.pos q))))))))) by lia.
      rewrite !DecimalPos.Unsigned.to_lu_succ, H0. auto.
    - exists Decimal.D9.
      replace (10 * N.pos q + 9)%N
        with (N.succ (N.succ (N.succ (N.succ (N.succ (N.succ (N.succ (N.succ
                (N.succ (10 * N.pos q)))))))))) by lia.
      rewrite !DecimalPos.Unsigned.to_lu_succ, H0. auto. }
  destruct Hd as (f & -> & Hrev & Hf).
  rewrite Hrev, uint_chars_revapp, Hf. reflexivity.
Qed.

(** The decimal string of a number of several digits is that of its tenth
    followed by its last digit. *)
Lemma str_step (v : Z) :
  10 <= v -> str v = str (v / 10) ++ [digit_char (v mod 10)].
Proof.
  intros Hv.
  assert (Hq : 1 <= v / 10) by (Z.div_mod_to_equations; lia).
  assert (Hr : 0 <= v mod 10 < 10) by (apply Z.mod_pos_bound; lia).
  destruct (v / 10) as [|q|q] eqn:Eq; try lia.
  pose proof (Z.div_mod v 10 ltac:(lia)) as Hdm. rewrite Eq in Hdm.
  assert (Ev : v = Z.of_N (10 * Npos q + Z.to_N (v mod 10))) by lia.
  rewrite Ev at 1.
  destruct (10 * N.pos q + Z.to_N (v mod 10))%N as [|p] eqn:Ep; [lia|].
  cbn [Z.of_N]. rewrite !str_pos, <- Ep.
  rewrite to_lu_step by lia. rewrite Z2N.id by lia. reflexivity.
Qed.

Lemma str_small_check :
  forallb (fun v => chars_eqb (str v) [digit_char v]) (range 10) = true.
Proof. vm_compute. reflexivity. Qed.

Lemma str_small (v : Z) : 0 <= v < 10 -> str v = [digit_char v].
Proof.
  intros Hv. apply chars_eqb_true.
  exact (proj1 (forallb_forall _ _) str_small_check v (below_in_range 10 v Hv)).
Qed.

Lemma zdigits_length (n : nat) (v : Z) : List.length (zdigits n v) = n.
Proof.
  revert v. induction n as [|n IH]; intros v; [reflexivity|].
  cbn [zdigits]. rewrite length_app, IH. cbn. lia.
Qed.

Lemma repeat_snoc {A : Type} (x : A) (n : nat) :
  repeat x n ++ [x] = repeat x (S n).
Proof. induction n as [|n IH]; [reflexivity|]. cbn. f_equal. exact IH. Qed.

Lemma zdigits_zero (n : nat) : zdigits n 0 = repeat "0" n.
Proof.
  induction n as [|n IH]; [reflexivity|].
  cbn [zdigits]. change (0 / 10) with 0. rewrite IH.
  change (digit_char (0 mod 10)) with "0". apply repeat_snoc.
Qed.

Lemma slice_last_snoc (k : nat) (s : chars) (c : ascii) :
  slice_last (S k) (s ++ [c]) = slice_last k s ++ [c].
Proof.
  unfold slice_last. rewrite length_app. cbn [List.length].
  replace (List.length s + 1 - S k)%nat with (List.length s - k)%nat by lia.
  rewrite skipn_app.
  replace (List.length s - k - List.length s)%nat with 0%nat by lia.
  reflexivity.
Qed.

(** The padded string of a value, one digit at a time. *)
Lemma rjust0_step (v : Z) (w : nat) :
  0 <= v ->
  rjust0 (Z.of_nat (S w)) (str v) =
  (if v <? 10 then repeat "0" w else rjust0 (Z.of_nat w) (str (v / 10))) ++
  [digit_char (v mod 10)].
Proof.
  intros Hv. unfold rjust0. rewrite !Nat2Z.id.
  destruct (Z.ltb_spec v 10) as [Hs|Hl].
  - rewrite (str_small v) by lia. rewrite Z.mod_small by lia.
    cbn [List.length]. replace (S w - 1)%nat with w by lia. reflexivity.
  - rewrite (str_step v Hl), length_app. cbn [List.length].
    replace (S w - (List.length (str (v / 10)) + 1))%nat
      with (w - List.length (str (v / 10)))%nat by lia.
    rewrite app_assoc. reflexivity.
Qed.

Lemma last_digits (n : nat) :
  forall (v : Z) (w : nat),
    0 <= v -> (n <= w)%nat ->
    slice_last n (rjust0 (Z.of_nat w) (str v)) = zdigits n v.
Proof.
  induction n as [|n IH]; intros v w Hv Hw.
  - unfold slice_last. rewrite Nat.sub_0_r. apply skipn_all.
  - destruct w as [|w]; [lia|].
    rewrite (rjust0_step v w Hv), slice_last_snoc. cbn [zdigits]. f_equal.
    destruct (Z.ltb_spec v 10) as [Hs|Hl].
    + rewrite Z.div_small by lia. rewrite zdigits_zero.
      unfold slice_last. rewrite repeat_length.
      replace (repeat "0" w) with (repeat "0" (w - n) ++ repeat "0" n)
        by (rewrite <- repeat_app; f_equal; lia).
      rewrite skipn_app, repeat_length.
      rewrite skipn_all2 by (rewrite repeat_length; lia).
      replace (w - n - (w - n))%nat with 0%nat by lia. reflexivity.
    + apply IH; [apply Z.div_pos; lia | lia].
Qed.

Lemma zdigits_period (n : nat) :
  forall v k, zdigits n (v + k * 10 ^ Z.of_nat n) = zdigits n v.
Proof.
  induction n as [|n IH]; intros v k; [reflexivity|].
  cbn [zdigits]. rewrite Nat2Z.inj_succ, Z.pow_succ_r by lia.
  replace (v + k * (10 * 10 ^ Z.of_nat n))
    with (v + (k * 10 ^ Z.of_nat n) * 10) by lia.
  rewrite Z.div_add, Z.mod_add by lia. rewrite IH. reflexivity.
Qed.

(** X11.  A directive that keeps the last [n] digits renders the value of its
    unit modulo [10^n], with zeros on the left: whatever is above the [n]
    digits is cut. *)
Theorem keep_last_directive (units : Z * Z * Z * Z) (ds : option chars)
  (u : unit_t) (n : nat) :
  (1 <= n)%nat ->
  stored_width ds u = - Z.of_nat n ->
  0 <= unit_value units u ->
  replacer units (MDirective ds u) = Ok (zdigits n (unit_value units u)) /\
  (forall k, zdigits n (unit_value units u + k * 10 ^ Z.of_nat n) =
             zdigits n (unit_value units u)).
Proof.
  intros Hn Hw Hv. split; [|intros k; apply zdigits_period].
  cbn [replacer]. rewrite Hw.
  destruct (Z.eqb_spec (- Z.of_nat n) 0) as [E|_]; [lia|].
  unfold apply_slice, padded.
  destruct (Z.ltb_spec (- Z.of_nat n) 0) as [_|E]; [|lia].
  rewrite Z.opp_involutive, Nat2Z.id.
  rewrite <- (Z2Nat.id (Z.max _ _)) by lia.
  rewrite last_digits by (try assumption; lia). reflexivity.
Qed.

Lemma keep_last_directive_witness :
  replacer (123, 4, 5, 6) (MDirective None UH) = Ok ["2"; "3"].
Proof.
  exact (proj1 (keep_last_directive (123, 4, 5, 6) None UH 2
                  ltac:(lia) eq_refl ltac:(cbn; lia))).
Defined.

Lemma rjust0_exact (w : nat) :
  forall v, 0 <= v < 10 ^ Z.of_nat w -> (1 <= w)%nat ->
            rjust0 (Z.of_nat w) (str v) = zdigits w v.
Proof.
  induction w as [|w IH]; intros v Hv Hw; [lia|].
  rewrite (rjust0_step v w) by lia. cbn [zdigits]. f_equal.
  destruct (Z.ltb_spec v 10) as [Hs|Hl].
  - rewrite Z.div_small by lia. symmetry. apply zdigits_zero.
  - rewrite Nat2Z.inj_succ, Z.pow_succ_r in Hv by lia.
    destruct w as [|w']; [cbn in Hv; lia|].
    apply IH; [|lia]. split; [apply Z.div_pos; lia|].
    apply Z.div_lt_upper_bound; lia.
Qed.

Lemma firstn_zdigits (w : nat) :
  forall v n, (n <= w)%nat ->
              firstn n (zdigits w v) = zdigits n (v / 10 ^ Z.of_nat (w - n)).
Proof.
  induction w as [|w IH]; intros v n Hn.
  - replace n with 0%nat by lia. reflexivity.
  - destruct (Nat.eq_dec n (S w)) as [->|Hne].
    + rewrite Nat.sub_diag. cbn [Z.of_nat]. rewrite Z.pow_0_r, Z.div_1_r.
      rewrite <- (zdigits_length (S w) v) at 1. apply firstn_all.
    + cbn [zdigits]. rewrite firstn_app, zdigits_length.
      replace (n - w)%nat with 0%nat by lia. cbn [firstn].
      rewrite app_nil_r, IH by lia.
      replace (S w - n)%nat with (S (w - n)) by lia.
      rewrite Nat2Z.inj_succ, Z.pow_succ_r by lia.
      rewrite Z.div_div by (try lia; apply Z.pow_pos_nonneg; lia).
      reflexivity.
Qed.

(** X12.  A directive that keeps the first [n] digits renders the leading [n]
    digits of the value written with [W = max(n, default_digs[u])] digits,
    that is the value divided by [10^(W-n)], when the value fits in [W]
    digits. *)
Theorem keep_first_directive (units : Z * Z * Z * Z) (ds : option chars)
  (u : unit_t) (n : nat) :
  (1 <= n)%nat ->
  stored_width ds u = Z.of_nat n ->
  let W := Z.max (Z.of_nat n) (default_digs u) in
  0 <= unit_value units u < 10 ^ W ->
  replacer units (MDirective ds u) =
  Ok (zdigits n (unit_value units u / 10 ^ (W - Z.of_nat n))).
Proof.
  intros Hn Hw W Hv. cbn [replacer]. rewrite Hw.
  destruct (Z.eqb_spec (Z.of_nat n) 0) as [E|_]; [lia|].
  unfold apply_slice, padded, slice_first.
  destruct (Z.ltb_spec (Z.of_nat n) 0) as [E|_]; [lia|].
  rewrite Nat2Z.id, Z.abs_eq by lia. fold W.
  assert (HW : W = Z.of_nat (Z.to_nat W)) by (unfold W; lia).
  rewrite HW at 1.
  rewrite rjust0_exact; [|rewrite <- HW; exact Hv | unfold W; lia].
  rewrite firstn_zdigits by (unfold W; lia).
  replace (Z.of_nat (Z.to_nat W - n)) with (W - Z.of_nat n)
    by (unfold W; lia).
  reflexivity.
Qed.

Lemma keep_first_directive_witness :
  replacer (0, 0, 0, 47) (MDirective (Some ["-"; "2"]) Um) = Ok ["0"; "4"].
Proof.
  exact (keep_first_directive (0, 0, 0, 47) (Some ["-"; "2"]) Um 2
           ltac:(lia) eq_refl ltac:(cbn; lia)).
Defined.

(** ** What a label depends on *)

Lemma sub_pieces_units_ext (u1 u2 : Z * Z * Z * Z) (ps : list piece) :
  (forall ds u, In (PMatch (MDirective ds u)) ps ->
                unit_value u1 u = unit_value u2 u) ->
  sub_pieces (replacer u1) ps = sub_pieces (replacer u2) ps.
Proof.
  induction ps as [|p ps IH]; intros H; [reflexivity|].
  rewrite !sub_pieces_cons.
  rewrite (IH (fun ds u Hin => H ds u (or_intror Hin))).
  destruct p as [c|[|ds u]]; try reflexivity.
  cbn [sub_piece replacer].
  rewrite (H ds u (or_introl eq_refl)). reflexivity.
Qed.

(** X13.  The elapsed time reaches the label only through the units that the
    directives of the pattern name: two times that agree on these units get
    the same label, or the same error. *)
Theorem label_depends_on_named_units (t1 t2 : Z) (fmt : string) :
  (forall ds u,
     In (PMatch (MDirective ds u)) (rx_scan (list_ascii_of_string fmt)) ->
     unit_value (get_units_from_milliseconds t1) u =
     unit_value (get_units_from_milliseconds t2) u) ->
  format_time t1 fmt = format_time t2 fmt.
Proof.
  intros H. unfold format_time, format_time_chars, rx_sub.
  rewrite (sub_pieces_units_ext _ _ _ H). reflexivity.
Qed.

Lemma label_depends_on_named_units_witness :
  format_time 61007 "%S.%m" = format_time 1007 "%S.%m".
Proof.
  apply label_depends_on_named_units.
  intros ds u [H|[H|[H|[]]]]; try discriminate H;
    injection H as _ <-; reflexivity.
Defined.

(** X14.  A pattern without an hours directive gives the same label, or the same
    error, a whole number of hours later or earlier. *)
Theorem without_hours_wraps (t k : Z) (fmt : string) :
  (forall ds,
     ~ In (PMatch (MDirective ds UH)) (rx_scan (list_ascii_of_string fmt))) ->
  format_time (t + k * 3600000) fmt = format_time t fmt.
Proof.
  intros Hno. unfold format_time, format_time_chars, rx_sub.
  rewrite (sub_pieces_units_ext
             (get_units_from_milliseconds (t + k * 3600000))
             (get_units_from_milliseconds t)); [reflexivity|].
  intros ds u Hin. rewrite !get_units_eq.
  destruct u; cbn [unit_value].
  - exfalso. exact (Hno ds Hin).
  - Z.div_mod_to_equations. lia.
  - Z.div_mod_to_equations. lia.
  - Z.div_mod_to_equations. lia.
Qed.

Lemma without_hours_wraps_witness :
  format_time (-1000 + 1 * 3600000) "%M:%S" = format_time (-1000) "%M:%S".
Proof.
  apply without_hours_wraps.
  intros ds [H|[H|[H|[]]]]; discriminate H.
Defined.

Lemma render_keep_last (v : Z) (n : nat) (u : unit_t) :
  0 <= v -> (1 <= n)%nat ->
  apply_slice (- Z.of_nat n) (padded v (- Z.of_nat n) u) = zdigits n v.
Proof.
  intros Hv Hn. unfold apply_slice, padded.
  destruct (Z.ltb_spec (- Z.of_nat n) 0) as [_|E]; [|lia].
  rewrite Z.opp_involutive, Nat2Z.id.
  rewrite <- (Z2Nat.id (Z.max _ _)) by lia.
  apply last_digits; [assumption | lia].
Qed.

(** X15.  With the pattern [%H:%M:%S.%m] the hours are shown modulo 100: a
    non-negative elapsed time and the time 100 hours later get the same
    label. *)
Theorem full_format_wraps_at_100_hours (t : Z) :
  0 <= t ->
  format_time (t + 360000000) "%H:%M:%S.%m" = format_time t "%H:%M:%S.%m".
Proof.
  intros Ht.
  assert (Hlabel : forall t', 0 <= t' ->
            format_time t' "%H:%M:%S.%m" =
            Ok (string_of_list_ascii
                  (zdigits 2 (t' / 1000 / 60 / 60) ++
                   ":" :: two_digit_chars ((t' / 1000 / 60) mod 60) ++
                   ":" :: two_digit_chars ((t' / 1000) mod 60) ++
                   "." :: three_digit_chars (t' mod 1000)))).
  { intros t' Ht'. rewrite format_time_valid by reflexivity.
    change (rx_scan (list_ascii_of_string "%H:%M:%S.%m"))
      with [PMatch (MDirective None UH); PChar ":";
            PMatch (MDirective None UM); PChar ":";
            PMatch (MDirective None US); PChar ".";
            PMatch (MDirective None Um)].
    rewrite get_units_eq.
    cbn [flat_map render_piece unit_value app].
    change (stored_width None UH) with (- Z.of_nat 2).
    change (stored_width None UM) with (-2).
    change (stored_width None US) with (-2).
    change (stored_width None Um) with 3.
    rewrite render_keep_last by (try lia; Z.div_mod_to_equations; lia).
    rewrite !last2_two_digits by (Z.div_mod_to_equations; lia).
    rewrite first3_ms by (Z.div_mod_to_equations; lia).
    rewrite app_nil_r. reflexivity. }
  rewrite !Hlabel by lia.
  replace ((t + 360000000) / 1000 / 60 / 60)
    with (t / 1000 / 60 / 60 + 1 * 10 ^ Z.of_nat 2)
    by (cbn; Z.div_mod_to_equations; lia).
  rewrite zdigits_period.
  replace (((t + 360000000) / 1000 / 60) mod 60) with ((t / 1000 / 60) mod 60)
    by (Z.div_mod_to_equations; lia).
  replace (((t + 360000000) / 1000) mod 60) with ((t / 1000) mod 60)
    by (Z.div_mod_to_equations; lia).
  replace ((t + 360000000) mod 1000) with (t mod 1000)
    by (Z.div_mod_to_equations; lia).
  reflexivity.
Qed.

Lemma full_format_wraps_at_100_hours_witness :
  format_time (3725007 + 360000000) "%H:%M:%S.%m" = Ok "01:02:05.007"%string.
Proof.
  rewrite (full_format_wraps_at_100_hours 3725007 ltac:(lia)). reflexivity.
Defined.

(** ** The frames of the partial second *)

Lemma int_lt_float_mono (i j : Z) (x : float) :
  i <= j -> int_lt_float j x = true -> int_lt_float i x = true.
Proof.
  intros Hij. destruct x as [s|s| |s m e]; cbn [int_lt_float]; auto.
  - intros H. apply Z.ltb_lt in H. apply Z.ltb_lt. lia.
  - destruct (Z.leb_spec 0 e) as [He|He]; intros H; apply Z.ltb_lt in H;
      apply Z.ltb_lt.
    + lia.
    + assert (0 < 2 ^ (- e)) by (apply Z.pow_pos_nonneg; lia). nia.
Qed.

Lemma filter_sorted_prefix (p : Z -> bool) (l : list Z) :
  (forall i j, i <= j -> p j = true -> p i = true) ->
  StronglySorted Z.le l ->
  exists k, filter p l = firstn k l.
Proof.
  intros Hmono Hs. induction Hs as [|x l Hs IH Hx].
  - exists 0%nat. reflexivity.
  - cbn [filter]. destruct (p x) eqn:Hpx.
    + destruct IH as (k & ->). exists (S k). reflexivity.
    + exists 0%nat. cbn [firstn].
      assert (Hall : forall y, In y l -> p y = false).
      { intros y Hy. destruct (p y) eqn:Hpy; [|reflexivity].
        pose proof (proj1 (Forall_forall _ _) Hx y Hy) as Hxy.
        cbn beta in Hxy. rewrite (Hmono x y Hxy Hpy) in Hpx. discriminate. }
      clear -Hall. induction l as [|y l IHl]; [reflexivity|].
      cbn [filter]. rewrite (Hall y (or_introl eq_refl)).
      apply IHl. intros z Hz. apply Hall. right. exact Hz.
Qed.

(** X22.  For a positive frame rate the partial second is made of the first
    frames of one second, without a hole: its elapsed times are the first [k]
    of the [fps] times [sec*1000 + j*(1000//fps)], where [sec] is
    [int(duration + 1)]. *)
Theorem partial_second_prefix (d : float) (fps sec : Z) (tl : list Z) :
  0 < fps ->
  py_int (float_add d (float_of_int 1)) = Ok sec ->
  partial_second (fun t => Ok t) d fps = Ok tl ->
  exists k,
    tl = firstn k (map (fun j => sec * 1000 + j * (1000 / fps)) (range fps)).
Proof.
  intros Hfps Hsec Htl.
  rewrite (partial_second_times d fps sec _
             (millis_counts_positive fps Hfps) Hsec) in Htl.
  injection Htl as <-.
  destruct (filter_sorted_prefix
              (fun o => int_lt_float o (frac_millis d))
              (map (fun j => j * (1000 / fps)) (range fps))) as (k & Hk).
  - intros i j Hij. apply int_lt_float_mono. exact Hij.
  - pose proof (block_sorted 0 (1000 / fps) 0 (Z.to_nat fps)
                  ltac:(apply Z.div_pos; lia)) as Hs.
    unfold range. erewrite map_ext; [exact Hs|]. intros j. cbn beta. lia.
  - exists k. rewrite Hk, <- firstn_map, map_map. reflexivity.
Qed.

Lemma partial_second_prefix_witness :
  exists k, [3000; 3250] =
            firstn k (map (fun j => 3 * 1000 + j * (1000 / 4)) (range 4)).
Proof.
  exact (partial_second_prefix (dyadic 5 (-1)) 4 3 [3000; 3250]
           eq_refl eq_refl eq_refl).
Defined.
